(** * Global Sentiment Dashboard: the data path of [src/src/PERFECT1.jsx]

    The component loads a CSV of per-country sentiment labels, keeps the
    well-formed rows, tallies them per country ([aggregateData]) and turns a
    tally into a colour value ([getColorValue]).  This file embeds that data
    path and proves the properties the specification states about it.

    Conventions.
    - JavaScript numbers that only ever hold integers (the three counts, the
      parsed sentiment) are [Z]; the colour value is a rational ([Q]).
    - A JavaScript object that is iterated ([countryData]) is an association
      list in insertion order with unique keys; [Object_entries] applies the
      language's own-key order to it.  An object that is only read by key (a
      row produced by the CSV parser) is a [gmap string string].
    - A string is a sequence of 8-bit code units.
    - [undefined] and [null] are [None].
    - What lies outside the file (the table of country codes, the case
      mapping of the language, the tokenizer of the CSV library) is a
      parameter: the class [Host].  The properties hold for every host. *)

From Stdlib Require Import Ascii String ZArith QArith Qround Lqa Permutation Sorted.
From stdpp Require Import base option list strings gmap pretty.

Open Scope string_scope.
Open Scope Z_scope.
Open Scope list_scope.

(** ** Strings *)

Definition code (c : ascii) : N := Ascii.N_of_ascii c.

(** [String.prototype.toLowerCase] on the ASCII letters.  No code unit outside
    [A-Z] lower-cases to one of the letters of [country], [region] or
    [randomvalue], so the comparisons of the header search are exact. *)
Definition lowerChar (c : ascii) : ascii :=
  if ((65 <=? code c) && (code c <=? 90))%N
  then Ascii.ascii_of_N (code c + 32) else c.

Fixpoint toLowerCase (s : string) : string :=
  match s with
  | EmptyString => EmptyString
  | String c s' => String (lowerChar c) (toLowerCase s')
  end.

(** White space of [parseInt] and [trim]: TAB, LF, VT, FF, CR, SP, NBSP. *)
Definition isWhiteSpace (c : ascii) : bool :=
  ((9 <=? code c) && (code c <=? 13) || (code c =? 32) || (code c =? 160))%N.

Definition isDigit (c : ascii) : bool := ((48 <=? code c) && (code c <=? 57))%N.

Definition digitValue (c : ascii) : Z := Z.of_N (code c) - 48.

Fixpoint trimStart (s : string) : string :=
  match s with
  | String c s' => if isWhiteSpace c then trimStart s' else s
  | EmptyString => EmptyString
  end.

Definition trimEnd (s : string) : string :=
  String.rev (trimStart (String.rev s)).

Definition trim (s : string) : string := trimEnd (trimStart s).

(** A string is truthy when it is not empty. *)
Definition truthy (s : string) : bool :=
  match s with EmptyString => false | _ => true end.

(** [a || b] on a possibly undefined string [a]. *)
Definition orElse (a : option string) (b : string) : string :=
  match a with
  | Some s => if truthy s then s else b
  | None => b
  end.

(** ** [parseInt(value, 10)]

    [None] is [NaN].  The result is the mathematical integer; [-0] is [0]
    (every test the code applies to the result treats them alike). *)

Fixpoint digitsValue (acc : Z) (s : string) : Z :=
  match s with
  | String c s' => if isDigit c then digitsValue (10 * acc + digitValue c) s' else acc
  | EmptyString => acc
  end.

Definition startsWithDigit (s : string) : bool :=
  match s with String c _ => isDigit c | EmptyString => false end.

Definition parseDigits (s : string) : option Z :=
  if startsWithDigit s then Some (digitsValue 0 s) else None.

(** [ToString] of a value that is a string or [undefined]. *)
Definition ToString (v : option string) : string :=
  match v with Some s => s | None => "undefined" end.

Definition parseInt (v : option string) : option Z :=
  match trimStart (ToString v) with
  | String "-"%char s' => Z.opp <$> parseDigits s'
  | String "+"%char s' => parseDigits s'
  | s => parseDigits s
  end.

(** ** What the component takes from outside

    [countryNameToId] is the table imported from [./constants/countryCodes]
    (a country name to its map identifier); reading it gives [None] when the
    name has no entry and otherwise the property key the entry stands for.
    An identifier of the table is taken not to be the name of a property that
    every object inherits ([constructor], [toString], ...), so that reading
    [countryData] under it finds an own entry or nothing.
    [toUpperCase] is [String.prototype.toUpperCase]; its results contain no
    lower-case ASCII letter and so are never such a name either.
    [csvRecords] is the tokenizer of the CSV library: the header row and the
    non-empty records of a text. *)
Class Host := {
  countryNameToId : string → option string;
  toUpperCase : string → string;
  csvRecords : string → list string * list (list string)
}.

(** ** Records *)

(** An element of the [data] state: [{country, region, sentiment}].  A
    [sentiment] of [None] is [null]. *)
Record Row := { country : string; region : string; sentiment : option Z }.

#[global] Instance Row_eq_dec : EqDecision Row.
Proof. solve_decision. Defined.

(** A value of [countryData]. *)
Module Counts.
Record t := { positive : Z; neutral : Z; negative : Z; displayName : string }.
End Counts.

(** An element of the array [aggregateData] returns. *)
Module Entry.
Record t := {
  id : string; displayName : string;
  positive : Z; neutral : Z; negative : Z; total : Z
}.
End Entry.

#[global] Instance Counts_eq_dec : EqDecision Counts.t.
Proof. solve_decision. Defined.
#[global] Instance Entry_eq_dec : EqDecision Entry.t.
Proof. solve_decision. Defined.

(** ** Objects with insertion order *)

Section JsObject.
Context {V : Type}.

(** [o[k]] *)
Fixpoint getProp (o : list (string * V)) (k : string) : option V :=
  match o with
  | [] => None
  | (k', v) :: o' => if decide (k' = k) then Some v else getProp o' k
  end.

(** [o[k] = v]: an existing key keeps its place, a new key goes last. *)
Fixpoint setProp (o : list (string * V)) (k : string) (v : V) : list (string * V) :=
  match o with
  | [] => [(k, v)]
  | (k', v') :: o' =>
      if decide (k' = k) then (k', v) :: o' else (k', v') :: setProp o' k v
  end.

(** A key is an array index when it is the canonical decimal form of an
    integer below [2^32 - 1]. *)
Definition allDigits (k : string) : bool :=
  forallb isDigit (list_ascii_of_string k).

Definition arrayIndex (k : string) : option N :=
  match k with
  | EmptyString => None
  | String c k' =>
      if allDigits k && (negb (code c =? 48)%N || bool_decide (k' = ""))
      then let n := Z.to_N (digitsValue 0 k) in
           if (n <? 4294967295)%N then Some n else None
      else None
  end.

Fixpoint insertByIndex (x : N * (string * V)) (l : list (N * (string * V)))
  : list (N * (string * V)) :=
  match l with
  | [] => [x]
  | y :: l' => if (x.1 <=? y.1)%N then x :: l else y :: insertByIndex x l'
  end.

Definition indexed (kv : string * V) : option (N * (string * V)) :=
  (λ n, (n, kv)) <$> arrayIndex kv.1.

(** [Object.entries(o)]: the array-index keys in ascending order, then the
    other keys in insertion order. *)
Definition Object_entries (o : list (string * V)) : list (string * V) :=
  (snd <$> foldr insertByIndex [] (omap indexed o))
  ++ filter (λ kv, arrayIndex kv.1 = None) o.

End JsObject.

(** ** [aggregateData] *)

(** What the function writes with [console.log]. *)
Inductive LogLine :=
| LogProcessing (index : nat) (country countryId : string) (sentiment : option Z)
| LogAggregated (first5 : list Entry.t).

(** [n || 0] on a number. *)
Definition orZero (n : Z) : Z := if decide (n = 0) then 0 else n.

Section Aggregate.
Context `{Host}.

(** [countryNameToId[row.country] || row.country.toUpperCase()] *)
Definition countryIdOf (row : Row) : string :=
  orElse (countryNameToId (country row)) (toUpperCase (country row)).

Definition newCounts (row : Row) : Counts.t :=
  {| Counts.positive := 0; Counts.neutral := 0; Counts.negative := 0;
     Counts.displayName := country row |}.

(** The [if / else if] chain of post-increments, on the object stored
    under the row's key. *)
Definition increment (sentiment : option Z) (c : Counts.t) : Counts.t :=
  if decide (sentiment = Some 2) then
    {| Counts.positive := Counts.positive c + 1; Counts.neutral := Counts.neutral c;
       Counts.negative := Counts.negative c; Counts.displayName := Counts.displayName c |}
  else if decide (sentiment = Some 1) then
    {| Counts.positive := Counts.positive c; Counts.neutral := Counts.neutral c + 1;
       Counts.negative := Counts.negative c; Counts.displayName := Counts.displayName c |}
  else if decide (sentiment = Some 0) then
    {| Counts.positive := Counts.positive c; Counts.neutral := Counts.neutral c;
       Counts.negative := Counts.negative c + 1; Counts.displayName := Counts.displayName c |}
  else c.

(** The effect of one call of the [forEach] callback on [countryData].  The
    entry under [countryId] exists when the increment reads it (the branch
    [None] of the second [match] is never taken, see [tallyRow_defined]). *)
Definition tallyRow (countryData : list (string * Counts.t)) (row : Row)
  : list (string * Counts.t) :=
  let countryId := countryIdOf row in
  let countryData :=
    match getProp countryData countryId with
    | None => setProp countryData countryId (newCounts row)
    | Some _ => countryData
    end in
  match getProp countryData countryId with
  | Some c => setProp countryData countryId (increment (sentiment row) c)
  | None => countryData
  end.

(** The callback with its log line. *)
Definition processRow (st : list (string * Counts.t) * list LogLine)
    (index : nat) (row : Row) : list (string * Counts.t) * list LogLine :=
  (tallyRow st.1 row,
   st.2 ++ [LogProcessing index (country row) (countryIdOf row) (sentiment row)]).

(** [data.forEach((row, index) => ...)] from [index] on. *)
Fixpoint forEach {S : Type} (f : S → nat → Row → S)
    (data : list Row) (index : nat) (st : S) : S :=
  match data with
  | [] => st
  | row :: rest => forEach f rest (Datatypes.S index) (f st index row)
  end.

Definition toEntry (kv : string * Counts.t) : Entry.t :=
  let '(id, counts) := kv in
  {| Entry.id := id;
     Entry.displayName := Counts.displayName counts;
     Entry.positive := orZero (Counts.positive counts);
     Entry.neutral := orZero (Counts.neutral counts);
     Entry.negative := orZero (Counts.negative counts);
     Entry.total := orZero (Counts.positive counts) + orZero (Counts.neutral counts)
                    + orZero (Counts.negative counts) |}.

(** The returned array, and the console output. *)
Definition aggregateData (data : list Row) : list Entry.t * list LogLine :=
  let st := forEach processRow data 0%nat ([], []) in
  let aggregated := toEntry <$> Object_entries st.1 in
  (aggregated, st.2 ++ [LogAggregated (take 5 aggregated)]).

(** [aggregated.find((item) => item.id === id)] *)
Definition findById (aggregated : list Entry.t) (id : string) : option Entry.t :=
  find (λ item, bool_decide (Entry.id item = id)) aggregated.

End Aggregate.

(** ** [getColorValue] *)

(** The guard [!countryData || countryData.total === 0]. *)
Definition noData (countryData : option Entry.t) : bool :=
  match countryData with
  | None => true
  | Some cd => bool_decide (Entry.total cd = 0)
  end.

(** The overall score before normalisation. *)
Definition overallScore (cd : Entry.t) : Q :=
  (inject_Z (2 * Entry.positive cd + Entry.neutral cd - 2 * Entry.negative cd)
   / inject_Z (2 * Entry.total cd))%Q.

Definition getColorValue (countryData : option Entry.t) (view : string) : Q :=
  match countryData with
  | None => 0%Q
  | Some cd =>
      if noData countryData then 0%Q
      else if decide (view = "positive") then
        (inject_Z (Entry.positive cd) / inject_Z (Entry.total cd))%Q
      else if decide (view = "neutral") then
        (inject_Z (Entry.neutral cd) / inject_Z (Entry.total cd))%Q
      else if decide (view = "negative") then
        (inject_Z (Entry.negative cd) / inject_Z (Entry.total cd))%Q
      else
        let score := overallScore cd in
        ((score + 1) / 2)%Q
  end.

(** ** Loading the CSV *)

(** The result of the CSV library: [meta.fields] and [data]. *)
Module Parsed.
Record t := { fields : list string; data : list (gmap string string) }.
End Parsed.

(** The library's header mode with the [transform] of the source: a record
    becomes an object from the header fields to the trimmed values, column by
    column.  (Two columns of one name are written to the same key here; the
    properties below that read a row built this way take the names to be
    distinct.)  Values beyond the last field are kept under a key the
    component never reads. *)
Definition papaRow (fields values : list string) : gmap string string :=
  foldl (λ row fv, <[fv.1 := trim fv.2]> row) ∅ (zip fields values).

Definition papaRows (fields : list string) (records : list (list string)) : Parsed.t :=
  {| Parsed.fields := fields; Parsed.data := papaRow fields <$> records |}.

(** [headers.find((h) => h.toLowerCase() === name) || fallback] *)
Definition findHeader (headers : list string) (name fallback : string) : string :=
  orElse (find (λ h, bool_decide (toLowerCase h = name)) headers) fallback.

(** The [map] callback.  [isNaN(sentiment) ? null : sentiment] is the identity
    on [option Z]. *)
Definition mapRow (countryHeader regionHeader valueHeader : string)
    (row : gmap string string) : Row :=
  let sentiment := parseInt (row !! valueHeader) in
  {| country := orElse (row !! countryHeader) "";
     region := orElse (row !! regionHeader) "";
     sentiment := sentiment |}.

(** The [filter] callback.  [Number.isInteger] holds of every [Z]. *)
Definition isValid (row : Row) : bool :=
  truthy (country row) &&
  match sentiment row with
  | None => false
  | Some s => (0 <=? s) && (s <=? 2)
  end.

Definition countryHeader (headers : list string) : string :=
  findHeader headers "country" "Country".
Definition regionHeader (headers : list string) : string :=
  findHeader headers "region" "Region".
Definition valueHeader (headers : list string) : string :=
  findHeader headers "randomvalue" "RandomValue".

Definition extractRows (parsed : Parsed.t) : list Row :=
  let headers := Parsed.fields parsed in
  filter (λ row, isValid row)
    (mapRow (countryHeader headers) (regionHeader headers) (valueHeader headers)
     <$> Parsed.data parsed).

(** A settled promise; a rejection carries the [message] of its error. *)
Inductive Promise (A : Type) :=
| Fulfilled (value : A)
| Rejected (message : string).
Arguments Fulfilled {A} value.
Arguments Rejected {A} message.

(** [p.then(f)] *)
Definition andThen {A B : Type} (p : Promise A) (f : A → Promise B) : Promise B :=
  match p with
  | Fulfilled a => f a
  | Rejected m => Rejected m
  end.

Record Response := {
  ok : bool; status : N; statusText : string;
  text : Promise string
}.

(** The part of the component state the load writes. *)
Module State.
Record t := { data : list Row; error : option string }.
End State.

Definition initialState : State.t := {| State.data := []; State.error := None |}.

Inductive Effect :=
| Fetch (url : string)
| SetError (message : string)
| SetData (data : list Row).

Definition noValidData : string :=
  "No valid data found. Check CSV format (headers: Country,Region,RandomValue).".

Section Load.
Context `{Host}.

Definition Papa_parse (csv : string) : Parsed.t :=
  let '(fields, records) := csvRecords csv in papaRows fields records.

(** The first [then]: a response that is not [ok] throws. *)
Definition checkResponse (response : Response) : Promise string :=
  if ok response then text response
  else Rejected ("HTTP error: " +:+ pretty (status response) +:+ " "
                 +:+ statusText response).

(** The second [then]. *)
Definition onCsv (csv : string) : Effect :=
  let data := extractRows (Papa_parse csv) in
  if decide (length data = 0%nat) then SetError noValidData else SetData data.

(** The [catch]. *)
Definition onError (message : string) : Effect :=
  SetError ("Failed to load data: " +:+ message).

(** The load effect, given how its [fetch] settles: what it does, in order.
    The effect has no dependencies, so it runs when the component mounts and
    not again. *)
Definition loadCsv (fetched : Promise Response) : list Effect :=
  [ Fetch "/geo_sentiments.csv";
    match andThen fetched checkResponse with
    | Fulfilled csv => onCsv csv
    | Rejected message => onError message
    end ].

End Load.

Definition applyEffect (st : State.t) (e : Effect) : State.t :=
  match e with
  | Fetch _ => st
  | SetError message => {| State.data := State.data st; State.error := Some message |}
  | SetData data => {| State.data := data; State.error := State.error st |}
  end.

Definition run (effects : list Effect) : State.t := foldl applyEffect initialState effects.

Definition isFetch (e : Effect) : bool :=
  match e with Fetch _ => true | _ => false end.

(** How many requests a run of effects sends. *)
Definition fetches (effects : list Effect) : nat :=
  length (filter (λ e, isFetch e) effects).

(** What the component renders. *)
Inductive Rendered :=
| ErrorView (message : string)
| LoadingView
| Dashboard (data : list Row).

Definition render (st : State.t) : Rendered :=
  match State.error st with
  | Some message =>
      if truthy message then ErrorView message
      else if decide (length (State.data st) = 0%nat) then LoadingView
      else Dashboard (State.data st)
  | None =>
      if decide (length (State.data st) = 0%nat) then LoadingView
      else Dashboard (State.data st)
  end.

(** ** A concrete host, for running the definitions *)

Definition upperChar (c : ascii) : ascii :=
  if ((97 <=? code c) && (code c <=? 122))%N
  then Ascii.ascii_of_N (code c - 32) else c.

Fixpoint asciiUpperCase (s : string) : string :=
  match s with
  | EmptyString => EmptyString
  | String c s' => String (upperChar c) (asciiUpperCase s')
  end.

Definition sampleCodes : gmap string string :=
  list_to_map [("India", "IN"); ("United States", "US"); ("France", "FR")].

(** [s.split(sep)] for a one-character separator. *)
Fixpoint splitOn (sep : ascii) (s : string) : list string :=
  match s with
  | EmptyString => [""]
  | String c s' =>
      if decide (c = sep) then "" :: splitOn sep s'
      else match splitOn sep s' with
           | [] => [String c ""]
           | w :: ws => String c w :: ws
           end
  end.

(** Comma-separated lines without quoting; empty lines are skipped. *)
Definition plainCsv (csv : string) : list string * list (list string) :=
  match filter (λ l, l ≠ "") (splitOn "010"%char csv) with
  | [] => ([], [])
  | header :: lines => (splitOn ","%char header, splitOn ","%char <$> lines)
  end.

Definition sampleHost : Host :=
  {| countryNameToId := λ name, sampleCodes !! name;
     toUpperCase := asciiUpperCase;
     csvRecords := plainCsv |}.

Definition newline : string := String "010"%char "".

Definition sampleCsv : string :=
  "COUNTRY,region,RandomValue" +:+ newline +:+
  "India,Asia,2" +:+ newline +:+
  "india,Asia,0" +:+ newline +:+
  "France,Europe,1" +:+ newline +:+
  ",Europe,1" +:+ newline +:+
  "Peru,America,7" +:+ newline.

Definition mkRow (c : string) (s : Z) : Row :=
  {| country := c; region := ""; sentiment := Some s |}.

Definition sampleRows : list Row :=
  [mkRow "India" 2; mkRow "india" 0; mkRow "India" 1; mkRow "France" 1; mkRow "INDIA" 0].

Definition sampleFields : list string := ["COUNTRY"; "Notes"; "region"; "randomVALUE"].

Definition sampleRecords : list (list string) :=
  [ ["India"; "x"; "Asia"; " 2"]; ["Peru"; "y"; "America"; "1.5"];
    [""; "z"; "Europe"; "1"]; ["Chad"; ""; "Africa"; "three"]; ["Fiji"] ].

Definition notFound : Response :=
  {| ok := false; status := 404; statusText := "Not Found"; text := Fulfilled "" |}.

Definition serverError : Response :=
  {| ok := false; status := 500; statusText := "Internal Server Error";
     text := Fulfilled "" |}.

Definition served (csv : string) : Response :=
  {| ok := true; status := 200; statusText := "OK"; text := Fulfilled csv |}.

Definition sampleEntry : Entry.t :=
  {| Entry.id := "IN"; Entry.displayName := "India";
     Entry.positive := 1; Entry.neutral := 1; Entry.negative := 2; Entry.total := 4 |}.

(** ** The vocabulary of the specification *)

Section Meaning.
Context `{Host}.

(** The rows of a list that belong to an identifier. *)
Definition rowsOf (id : string) (data : list Row) : list Row :=
  filter (λ row, countryIdOf row = id) data.

(** How many rows of an identifier carry the sentiment [s]. *)
Definition countOf (s : Z) (id : string) (data : list Row) : Z :=
  Z.of_nat (length (filter (λ row, sentiment row = Some s) (rowsOf id data))).

(** The three counts [(positive, neutral, negative)] an array holds for an
    identifier; all zero when it has no entry. *)
Definition countsAt (aggregated : list Entry.t) (id : string) : Z * Z * Z :=
  match findById aggregated id with
  | Some e => (Entry.positive e, Entry.neutral e, Entry.negative e)
  | None => (0, 0, 0)
  end.

(** The counts [c] once the rows of [id] in [data] are added to them. *)
Definition tallied (c : Counts.t) (id : string) (data : list Row) : Counts.t :=
  {| Counts.positive := Counts.positive c + countOf 2 id data;
     Counts.neutral := Counts.neutral c + countOf 1 id data;
     Counts.negative := Counts.negative c + countOf 0 id data;
     Counts.displayName := Counts.displayName c |}.

(** The entry of an identifier, read off the rows: the name of the first
    row of that identifier and the number of its rows per sentiment. *)
Definition entryOf (id : string) (data : list Row) : option Entry.t :=
  (λ first,
     {| Entry.id := id;
        Entry.displayName := country first;
        Entry.positive := countOf 2 id data;
        Entry.neutral := countOf 1 id data;
        Entry.negative := countOf 0 id data;
        Entry.total := countOf 2 id data + countOf 1 id data + countOf 0 id data |})
  <$> head (rowsOf id data).

(** An entry without its [displayName]. *)
Definition tallyOf (e : Entry.t) : string * (Z * Z * Z * Z) :=
  (Entry.id e, (Entry.positive e, Entry.neutral e, Entry.negative e, Entry.total e)).

End Meaning.

(** A row is kept, in the words of the specification: its country field is
    not empty and its value field parses to 0, 1 or 2. *)
Definition keptRow (countryHeader valueHeader : string) (row : gmap string string) : Prop :=
  orElse (row !! countryHeader) "" ≠ "" ∧
  (parseInt (row !! valueHeader) = Some 0 ∨
   parseInt (row !! valueHeader) = Some 1 ∨
   parseInt (row !! valueHeader) = Some 2).

#[global] Instance keptRow_dec ch vh row : Decision (keptRow ch vh row).
Proof. unfold keptRow. apply _. Defined.

(** The canonical spelling of a header that is one of the three expected
    names up to letter case. *)
Definition canonicalHeader (h : string) : string :=
  if decide (toLowerCase h = "country") then "Country"
  else if decide (toLowerCase h = "region") then "Region"
  else if decide (toLowerCase h = "randomvalue") then "RandomValue"
  else h.

(** The three expected names, each with the literal the source falls back
    to. *)
Definition expectedHeader (name fallback : string) : Prop :=
  (name, fallback) ∈
    [("country", "Country"); ("region", "Region"); ("randomvalue", "RandomValue")].

(** The fetch fails: it rejects, the response is not [ok], or reading the
    body rejects. *)
Definition fetchFails (fetched : Promise Response) (message : string) : Prop :=
  andThen fetched checkResponse = Rejected message.

(** * The rest of the component *)

(** ** The reverse table of display names

    The table of country codes as an object: its entries, in the order they
    were written, under distinct names. *)

(** [Object.fromEntries(entries)] *)
Definition Object_fromEntries {V : Type} (entries : list (string * V)) : list (string * V) :=
  foldl (λ o kv, setProp o kv.1 kv.2) [] entries.

(** [Object.fromEntries(Object.entries(countryNameToId).map(([name, id]) => [id, name]))] *)
Definition idToCountryName (table : list (string * string)) : list (string * string) :=
  Object_fromEntries ((λ kv, (kv.2, kv.1)) <$> Object_entries table).

(** The host that reads its country codes from a table. *)
Definition tableHost (table : list (string * string)) (upper : string → string)
    (tokenizer : string → list string * list (list string)) : Host :=
  {| countryNameToId := getProp table; toUpperCase := upper; csvRecords := tokenizer |}.

(** ** [getColor] *)

(** A colour object of the charting library, by the number it is made
    from. *)
Inductive Am5Color := am5_color (hex : N).

#[global] Instance Am5Color_eq_dec : EqDecision Am5Color.
Proof. solve_decision. Defined.

(** [n || 1] on a number. *)
Definition orOne (n : Z) : Z := if decide (n = 0) then 1 else n.

Definition getColor (countryData : option Entry.t) (view : string) : Am5Color :=
  match countryData with
  | None => am5_color 0xd3d3d3
  | Some cd =>
      if decide (view = "positive") then
        if 0 <? Entry.positive cd then am5_color 0x00ff00 else am5_color 0xd3d3d3
      else if decide (view = "neutral") then
        if 0 <? Entry.neutral cd then am5_color 0xffff00 else am5_color 0xd3d3d3
      else if decide (view = "negative") then
        if 0 <? Entry.negative cd then am5_color 0xff0000 else am5_color 0xd3d3d3
      else
        let total := orOne (Entry.total cd) in
        let score :=
          (inject_Z (2 * orZero (Entry.positive cd) + orZero (Entry.neutral cd))
           / inject_Z total)%Q in
        if Qle_bool (3 # 2) score then am5_color 0x00ff00
        else if Qle_bool (1 # 2) score then am5_color 0xffff00
        else am5_color 0xff0000
  end.

(** ** Colours as text: [interpolateColor] and [getGradientColor]

    A number that need not be an integer is the rational it stands for, and
    the arithmetic on it is exact (the rounding of floating point is left
    out).  A decimal literal of the source is the rational of the double it
    denotes.  A number that may be [NaN] is an [option], [None] being
    [NaN]. *)

(** [s.substring(start, stop)] for [start <= stop]. *)
Definition substring (s : string) (start stop : nat) : string :=
  String.substring start (stop - start) s.

(** [s.slice(1)] *)
Definition slice1 (s : string) : string :=
  match s with EmptyString => EmptyString | String _ s' => s' end.

Definition hexDigitValue (c : ascii) : option Z :=
  if isDigit c then Some (Z.of_N (code c) - 48)
  else if ((97 <=? code c) && (code c <=? 102))%N then Some (Z.of_N (code c) - 87)
  else if ((65 <=? code c) && (code c <=? 70))%N then Some (Z.of_N (code c) - 55)
  else None.

Fixpoint hexDigitsValue (acc : Z) (s : string) : Z :=
  match s with
  | String c s' =>
      match hexDigitValue c with
      | Some d => hexDigitsValue (16 * acc + d) s'
      | None => acc
      end
  | EmptyString => acc
  end.

Definition parseHexDigits (s : string) : option Z :=
  match s with
  | String c _ => if hexDigitValue c is Some _ then Some (hexDigitsValue 0 s) else None
  | EmptyString => None
  end.

Definition stripHexPrefix (s : string) : string :=
  match s with
  | String "0"%char (String "x"%char s') => s'
  | String "0"%char (String "X"%char s') => s'
  | _ => s
  end.

(** [parseInt(s, 16)] *)
Definition parseInt16 (s : string) : option Z :=
  match trimStart s with
  | String "-"%char s' => Z.opp <$> parseHexDigits (stripHexPrefix s')
  | String "+"%char s' => parseHexDigits (stripHexPrefix s')
  | s' => parseHexDigits (stripHexPrefix s')
  end.

(** [Math.round]: the nearest integer, a half going up. *)
Definition Math_round (x : Q) : Z := Qfloor (x + (1 # 2)).

(** [Math.round(c1 + (c2 - c1) * factor)] *)
Definition mixChannel (c1 c2 : option Z) (factor : Q) : option Z :=
  match c1, c2 with
  | Some a, Some b => Some (Math_round (inject_Z a + inject_Z (b - a) * factor))
  | _, _ => None
  end.

(** The conversion of a number to a signed 32-bit integer; [NaN] gives 0. *)
Definition ToInt32 (x : option Z) : Z :=
  match x with
  | None => 0
  | Some n =>
      let m := n mod 2 ^ 32 in
      if m <? 2 ^ 31 then m else m - 2 ^ 32
  end.

(** [x << k] for [0 <= k < 32]. *)
Definition shiftLeft (x : option Z) (k : Z) : Z :=
  ToInt32 (Some (Z.shiftl (ToInt32 x) k)).

Definition hexDigit (d : Z) : ascii :=
  if d <? 10 then Ascii.ascii_of_N (Z.to_N d + 48)
  else Ascii.ascii_of_N (Z.to_N d + 87).

Fixpoint hexDigits (fuel : nat) (n : Z) (acc : string) : string :=
  match fuel with
  | O => acc
  | Datatypes.S fuel' =>
      let acc' := String (hexDigit (n mod 16)) acc in
      if n / 16 =? 0 then acc' else hexDigits fuel' (n / 16) acc'
  end.

(** The hexadecimal digits of a natural number; the fuel is its length in
    bits, which is never less than its length in hexadecimal digits. *)
Definition hexOfNat (n : Z) : string :=
  hexDigits (Datatypes.S (Z.to_nat (Z.log2 n))) n "".

(** [x.toString(16)] for an integer or [NaN]. *)
Definition Number_toString16 (x : option Z) : string :=
  match x with
  | None => "NaN"
  | Some n => if n <? 0 then String "-"%char (hexOfNat (- n)) else hexOfNat n
  end.

(** [(1 << 24) + (r << 16) + (g << 8) + b] *)
Definition packRgb (r g b : option Z) : option Z :=
  (λ b', shiftLeft (Some 1) 24 + shiftLeft r 16 + shiftLeft g 8 + b') <$> b.

(** The three channels a colour text is read as. *)
Definition channels (color : string) : option Z * option Z * option Z :=
  (parseInt16 (substring color 1 3),
   parseInt16 (substring color 3 5),
   parseInt16 (substring color 5 7)).

Definition interpolateColor (color1 color2 : string) (factor : Q) : string :=
  if Qle_bool factor 0 then color1
  else if Qle_bool 1 factor then color2
  else
    let '(r1, g1, b1) := channels color1 in
    let '(r2, g2, b2) := channels color2 in
    let r := mixChannel r1 r2 factor in
    let g := mixChannel g1 g2 factor in
    let b := mixChannel b1 b2 factor in
    "#" +:+ slice1 (Number_toString16 (packRgb r g b)).

(** The literals [0.66], [0.33] and [0.34]. *)
Definition lit_0_66 : Q := 5944751508129055 # 9007199254740992.
Definition lit_0_33 : Q := 5944751508129055 # 18014398509481984.
Definition lit_0_34 : Q := 6124895493223875 # 18014398509481984.

Definition getGradientColor (value : Q) (view : string) : string :=
  if decide (view = "positive") then interpolateColor "#cce5cc" "#006400" value
  else if decide (view = "neutral") then interpolateColor "#ffffcc" "#cccc00" value
  else if decide (view = "negative") then interpolateColor "#f5cccc" "#8b0000" value
  else if Qle_bool lit_0_66 value then
    interpolateColor "#cccc00" "#006400" ((value - lit_0_66) / lit_0_34)
  else if Qle_bool lit_0_33 value then "#cccc00"
  else interpolateColor "#8b0000" "#cccc00" (value / lit_0_33).

(** ** The data of the map series *)

(** The [fill] of an item: a colour text, or a colour object. *)
Inductive Fill :=
| FillText (color : string)
| FillColor (color : Am5Color).

(** An element of [seriesData]. *)
Module Item.
Record t := {
  id : string; displayName : string;
  positive : Z; neutral : Z; negative : Z; total : Z;
  value : Q; fill : Fill; interactive : bool
}.
End Item.

(** The callback of [geoCountries.map]: [names] is [idToCountryName]. *)
Definition seriesItem (aggregated : list Entry.t) (names : list (string * string))
    (view : string) (id : string) : Item.t :=
  match findById aggregated id with
  | Some countryData =>
      let sentimentScore := getColorValue (Some countryData) view in
      {| Item.id := id;
         Item.displayName := Entry.displayName countryData;
         Item.positive := Entry.positive countryData;
         Item.neutral := Entry.neutral countryData;
         Item.negative := Entry.negative countryData;
         Item.total := Entry.total countryData;
         Item.value := sentimentScore;
         Item.fill := FillText (getGradientColor sentimentScore view);
         Item.interactive := true |}
  | None =>
      {| Item.id := id;
         Item.displayName := orElse (getProp names id) id;
         Item.positive := 0; Item.neutral := 0; Item.negative := 0; Item.total := 0;
         Item.value := 0%Q;
         Item.fill := FillColor (am5_color 0xd3d3d3);
         Item.interactive := false |}
  end.

(** [seriesData]: one item for each country of the map, [geoCountries]
    being the identifiers of the map data. *)
Definition seriesData (aggregated : list Entry.t) (names : list (string * string))
    (view : string) (geoCountries : list string) : list Item.t :=
  seriesItem aggregated names view <$> geoCountries.

(** ** Tooltips *)

(** A count inside a template literal (an integer below [10^21]). *)
Definition numberText (n : Z) : string := pretty n.

Definition countsText (positive neutral negative : Z) : string :=
  newline +:+ "Positive: " +:+ numberText positive +:+
  newline +:+ "Neutral: " +:+ numberText neutral +:+
  newline +:+ "Negative: " +:+ numberText negative.

(** The adapter of [tooltipText]; [None] is a polygon without data item. *)
Definition tooltipAdapter (dataItem : option Item.t) : string :=
  match dataItem with
  | Some d =>
      if 0 <? Item.total d then
        "[bold]" +:+ orElse (Some (Item.displayName d)) (Item.id d) +:+ "[/]" +:+
        countsText (Item.positive d) (Item.neutral d) (Item.negative d)
      else
        "No data for " +:+
        orElse (Some (Item.displayName d)) (orElse (Some (Item.id d)) "Unknown")
  | None => "No data for Unknown"
  end.

(** The [pointerover] handler: the tooltip text it sets.  Without a data
    item the handler reads a property of [undefined] and throws ([None]). *)
Definition onPointerOver (names : list (string * string)) (country : option Item.t)
  : option string :=
  match country with
  | None => None
  | Some c =>
      let displayName :=
        orElse (getProp names (Item.id c))
          (orElse (Some (Item.displayName c)) (Item.id c)) in
      if Item.interactive c then
        Some (displayName +:+
              countsText (orZero (Item.positive c)) (orZero (Item.neutral c))
                (orZero (Item.negative c)))
      else Some ("No data for " +:+ displayName)
  end.

(** ** The country list and the selection *)

(** [[...new Set(l)]]: the distinct elements, each at its first place. *)
Fixpoint distinctFrom (seen l : list string) : list string :=
  match l with
  | [] => []
  | x :: l' =>
      if decide (x ∈ seen) then distinctFrom seen l'
      else x :: distinctFrom (x :: seen) l'
  end.

Definition Set_spread (l : list string) : list string := distinctFrom [] l.

Fixpoint insertSorted (s : string) (l : list string) : list string :=
  match l with
  | [] => [s]
  | x :: l' => if String.leb s x then s :: l else x :: insertSorted s l'
  end.

(** [l.sort()] on strings: ascending by code units. *)
Definition Array_sort (l : list string) : list string := foldr insertSorted [] l.

Section Select.
Context `{Host}.

(** [countryNameToId[country] || country.toUpperCase()] on a name. *)
Definition optionValue (name : string) : string :=
  orElse (countryNameToId name) (toUpperCase name).

(** The options of the country list after the placeholder: the label and
    the value of each. *)
Definition countryOptions (data : list Row) : list (string * string) :=
  (λ name, (name, optionValue name)) <$> Array_sort (Set_spread (country <$> data)).

End Select.

(** What [selectedDetails] can hold: an item of the map (after a click) or
    an entry of the tally (after a choice in the list). *)
Inductive Details :=
| OfMap (item : Item.t)
| OfList (entry : Entry.t).

Definition detailsId (d : Details) : string :=
  match d with OfMap i => Item.id i | OfList e => Entry.id e end.
Definition detailsName (d : Details) : string :=
  match d with OfMap i => Item.displayName i | OfList e => Entry.displayName e end.
Definition detailsCounts (d : Details) : Z * Z * Z * Z :=
  match d with
  | OfMap i => (Item.positive i, Item.neutral i, Item.negative i, Item.total i)
  | OfList e => (Entry.positive e, Entry.neutral e, Entry.negative e, Entry.total e)
  end.

Module Selection.
Record t := { selectedCountry : string; selectedDetails : option Details }.
End Selection.

Definition noSelection : Selection.t :=
  {| Selection.selectedCountry := ""; Selection.selectedDetails := None |}.

(** The [click] handler ([None]: no data item). *)
Definition onClick (country : option Item.t) (sel : Selection.t) : Selection.t :=
  match country with
  | Some c =>
      if Item.interactive c then
        {| Selection.selectedCountry := Item.id c;
           Selection.selectedDetails := Some (OfMap c) |}
      else sel
  | None => sel
  end.

(** The [onChange] handler of the country list. *)
Definition onCountryChange `{Host} (data : list Row) (value : string) : Selection.t :=
  {| Selection.selectedCountry := value;
     Selection.selectedDetails := OfList <$> findById (aggregateData data).1 value |}.

Definition handleCloseDetails : Selection.t :=
  {| Selection.selectedCountry := ""; Selection.selectedDetails := None |}.

(** The details panel: its heading and the four numbers it shows; [None]
    when no panel is rendered. *)
Definition detailsPanel (names : list (string * string)) (sel : Selection.t)
  : option (string * (Z * Z * Z * Z)) :=
  match Selection.selectedDetails sel with
  | None => None
  | Some d =>
      let '(p, n, g, t) := detailsCounts d in
      Some (orElse (getProp names (detailsId d))
              (orElse (Some (detailsName d)) (detailsId d)) +:+ " Overview",
            (orZero p, orZero n, orZero g, orZero t))
  end.

(** What the user can do with the selection. *)
Inductive Action :=
| Click (country : option Item.t)
| Choose (value : string)
| Close.

Definition act `{Host} (data : list Row) (sel : Selection.t) (a : Action) : Selection.t :=
  match a with
  | Click country => onClick country sel
  | Choose value => onCountryChange data value
  | Close => handleCloseDetails
  end.

(** A sample table of country codes, with two names for one identifier. *)
Definition sampleTable : list (string * string) :=
  [("India", "IN"); ("United States", "US"); ("France", "FR");
   ("United States of America", "US")].

(** ** More vocabulary *)

(** A row counts when its sentiment is 0, 1 or 2. *)
Definition countedRow (row : Row) : Prop :=
  sentiment row = Some 0 ∨ sentiment row = Some 1 ∨ sentiment row = Some 2.

#[global] Instance countedRow_dec row : Decision (countedRow row).
Proof. unfold countedRow. apply _. Defined.

(** The sum of the [total] fields of an array. *)
Definition sumTotals (aggregated : list Entry.t) : Z :=
  foldr Z.add 0 (Entry.total <$> aggregated).

(** Counts added field by field. *)
Definition addCounts (a b : Z * Z * Z) : Z * Z * Z :=
  (a.1.1 + b.1.1, a.1.2 + b.1.2, a.2 + b.2).

(** The two hexadecimal digits of a channel. *)
Definition hex2 (x : Z) : string :=
  String (hexDigit (x / 16)) (String (hexDigit (x mod 16)) "").

(** The text of a colour with the given channels. *)
Definition colorText (r g b : Z) : string :=
  "#" +:+ hex2 r +:+ hex2 g +:+ hex2 b.

Definition isChannel (x : Z) : Prop := 0 ≤ x ≤ 255.

(** [x] lies between [a] and [b], whichever of the two is larger. *)
Definition between (a x b : Z) : Prop := Z.min a b ≤ x ≤ Z.max a b.

(** One channel of an interpolated colour, from the channels [a] and [b] of
    the two ends. *)
Definition channelAt (a b : Z) (factor : Q) : Z :=
  if Qle_bool factor 0 then a
  else if Qle_bool 1 factor then b
  else Math_round (inject_Z a + inject_Z (b - a) * factor).

(** An action the page allows: a click lands on a polygon of the series (of
    whatever view is shown) or on one without data item. *)
Definition allowed `{Host} (data : list Row) (a : Action) : Prop :=
  match a with
  | Click (Some item) =>
      ∃ names view geoCountries,
        item ∈ seriesData (aggregateData data).1 names view geoCountries
  | _ => True
  end.

(** The selection agrees with the tally: the country list shows the
    identifier of the details, and the details carry the counts the tally has
    for that identifier. *)
Definition selectionAgrees `{Host} (data : list Row) (sel : Selection.t) : Prop :=
  match Selection.selectedDetails sel with
  | None => True
  | Some d =>
      Selection.selectedCountry sel = detailsId d ∧
      ∃ e, findById (aggregateData data).1 (detailsId d) = Some e ∧
           detailsCounts d =
             (Entry.positive e, Entry.neutral e, Entry.negative e, Entry.total e)
  end.

(** Ascending order of strings by code units. *)
Definition ascending (l : list string) : Prop :=
  Sorted (λ a b, String.leb a b = true) l.

(** A country of the map without rows. *)
Definition sampleItem : Item.t :=
  seriesItem (@aggregateData sampleHost sampleRows).1 (idToCountryName sampleTable)
    "overall" "US".

(** * Properties *)

(** ** The definitions on concrete inputs *)

Example parseInt_2 : parseInt (Some "2") = Some 2.
Proof. reflexivity. Qed.
Example parseInt_2abc : parseInt (Some "2abc") = Some 2.
Proof. reflexivity. Qed.
Example parseInt_minus : parseInt (Some "-1") = Some (-1).
Proof. reflexivity. Qed.
Example parseInt_undefined : parseInt None = None.
Proof. reflexivity. Qed.
Example parseInt_empty : parseInt (Some "") = None.
Proof. reflexivity. Qed.
Example parseInt_fraction : parseInt (Some "1.9") = Some 1.
Proof. reflexivity. Qed.

Example sample_headers :
  Parsed.fields (@Papa_parse sampleHost sampleCsv) = ["COUNTRY"; "region"; "RandomValue"].
Proof. vm_compute. reflexivity. Qed.

Example sample_rows :
  extractRows (@Papa_parse sampleHost sampleCsv) =
  [ {| country := "India"; region := "Asia"; sentiment := Some 2 |};
    {| country := "india"; region := "Asia"; sentiment := Some 0 |};
    {| country := "France"; region := "Europe"; sentiment := Some 1 |} ].
Proof. vm_compute. reflexivity. Qed.

Example sample_aggregate :
  (@aggregateData sampleHost [mkRow "b" 1; mkRow "10" 2; mkRow "9" 0; mkRow "B" 1]).1 =
  [ {| Entry.id := "9"; Entry.displayName := "9"; Entry.positive := 0;
       Entry.neutral := 0; Entry.negative := 1; Entry.total := 1 |};
    {| Entry.id := "10"; Entry.displayName := "10"; Entry.positive := 1;
       Entry.neutral := 0; Entry.negative := 0; Entry.total := 1 |};
    {| Entry.id := "B"; Entry.displayName := "b"; Entry.positive := 0;
       Entry.neutral := 2; Entry.negative := 0; Entry.total := 2 |} ].
Proof. vm_compute. reflexivity. Qed.

(** ** Objects *)

Section JsObjectFacts.
Context {V : Type}.
Implicit Types (o : list (string * V)) (k : string) (v : V).

Lemma getProp_setProp_eq o k v : getProp (setProp o k v) k = Some v.
Proof.
  induction o as [|[k' v'] o IH]; simpl.
  - by rewrite decide_True.
  - destruct (decide (k' = k)) as [->|Hne]; simpl.
    + by rewrite decide_True.
    + by rewrite decide_False.
Qed.

Lemma getProp_setProp_ne o k k' v :
  k ≠ k' → getProp (setProp o k v) k' = getProp o k'.
Proof.
  intros Hne. induction o as [|[k0 v0] o IH]; simpl.
  - by rewrite decide_False.
  - destruct (decide (k0 = k)) as [->|Hk]; simpl.
    + by rewrite !decide_False.
    + destruct (decide (k0 = k')); [done | apply IH].
Qed.

Lemma getProp_None o k : getProp o k = None ↔ k ∉ o.*1.
Proof.
  induction o as [|[k' v'] o IH]; simpl.
  - split; [intros _; apply not_elem_of_nil | done].
  - rewrite not_elem_of_cons. destruct (decide (k' = k)) as [->|Hne].
    + split; [done | intros [? _]; done].
    + rewrite IH. split; [intros ?; split; [congruence | done] | intros [_ ?]; done].
Qed.

Lemma getProp_Some_elem o k v : getProp o k = Some v → (k, v) ∈ o.
Proof.
  induction o as [|[k' v'] o IH]; simpl; [done|].
  destruct (decide (k' = k)) as [->|Hne].
  - intros [= ->]. apply list_elem_of_here.
  - intros Hg. apply list_elem_of_further. by apply IH.
Qed.

Lemma elem_getProp o k v : NoDup o.*1 → (k, v) ∈ o → getProp o k = Some v.
Proof.
  induction o as [|[k' v'] o IH]; simpl; intros Hnd Hin.
  - by apply elem_of_nil in Hin.
  - apply NoDup_cons in Hnd as [Hk' Hnd].
    apply elem_of_cons in Hin as [[= -> ->]|Hin].
    + by rewrite decide_True.
    + rewrite decide_False; [by apply IH|].
      intros ->. apply Hk'. apply list_elem_of_fmap. by exists (k, v).
Qed.

Lemma elem_keys_setProp o k k' v :
  k' ∈ (setProp o k v).*1 ↔ k' = k ∨ k' ∈ o.*1.
Proof.
  induction o as [|[k0 v0] o IH]; simpl.
  - rewrite list_elem_of_singleton, elem_of_nil. tauto.
  - destruct (decide (k0 = k)) as [->|Hne]; simpl.
    + rewrite !elem_of_cons. tauto.
    + rewrite !elem_of_cons, IH. tauto.
Qed.

Lemma NoDup_setProp o k v : NoDup o.*1 → NoDup (setProp o k v).*1.
Proof.
  induction o as [|[k0 v0] o IH]; simpl; intros Hnd.
  - apply NoDup_singleton.
  - apply NoDup_cons in Hnd as [Hk0 Hnd].
    destruct (decide (k0 = k)) as [->|Hne]; simpl.
    + by apply NoDup_cons.
    + apply NoDup_cons. split; [|by apply IH].
      rewrite elem_keys_setProp. intros [?|?]; [congruence | done].
Qed.

Lemma keys_length_setProp_present o k v :
  is_Some (getProp o k) → length (setProp o k v) = length o.
Proof.
  induction o as [|[k0 v0] o IH]; simpl.
  - by intros [? ?].
  - destruct (decide (k0 = k)); simpl; [done|]. intros Hs. by rewrite IH.
Qed.

End JsObjectFacts.

Section EntriesFacts.
Context {V : Type}.
Implicit Types (o : list (string * V)) (k : string) (v : V).

Lemma insertByIndex_perm (x : N * (string * V)) l : insertByIndex x l ≡ₚ x :: l.
Proof.
  induction l as [|y l IH]; simpl; [done|].
  destruct (x.1 <=? y.1)%N; [done|].
  rewrite IH. apply Permutation_swap.
Qed.

Lemma sortByIndex_perm (l : list (N * (string * V))) : foldr insertByIndex [] l ≡ₚ l.
Proof.
  induction l as [|x l IH]; simpl; [done|].
  by rewrite insertByIndex_perm, IH.
Qed.

Lemma Object_entries_perm o : Object_entries o ≡ₚ o.
Proof.
  unfold Object_entries. rewrite sortByIndex_perm.
  induction o as [|[k v] o IH]; [done|].
  destruct (arrayIndex k) as [n|] eqn:Hk.
  - rewrite filter_cons_False by (simpl; rewrite Hk; done).
    simpl. unfold indexed at 1. simpl. rewrite Hk. simpl. by rewrite IH.
  - rewrite filter_cons_True by (simpl; by rewrite Hk).
    simpl. unfold indexed at 1. simpl. rewrite Hk. simpl.
    by rewrite <- Permutation_middle, IH.
Qed.

Lemma getProp_perm o o' k : NoDup o.*1 → o' ≡ₚ o → getProp o' k = getProp o k.
Proof.
  intros Hnd Hp.
  assert (NoDup o'.*1) as Hnd' by (by rewrite Hp).
  destruct (getProp o k) as [v|] eqn:Hg.
  - apply elem_getProp; [done|]. rewrite Hp. by apply getProp_Some_elem.
  - apply getProp_None. rewrite Hp. by apply getProp_None.
Qed.

End EntriesFacts.

(** ** The tally *)

Lemma orZero_id n : orZero n = n.
Proof. unfold orZero. by case_decide. Qed.

Section TallyFacts.
Context `{Host}.
Implicit Types (cd : list (string * Counts.t)) (row : Row) (data : list Row) (id : string).

Lemma rowsOf_cons id row data :
  rowsOf id (row :: data) =
  if decide (countryIdOf row = id) then row :: rowsOf id data else rowsOf id data.
Proof. unfold rowsOf. by rewrite filter_cons. Qed.

Lemma rowsOf_app id data1 data2 :
  rowsOf id (data1 ++ data2) = rowsOf id data1 ++ rowsOf id data2.
Proof. unfold rowsOf. by rewrite filter_app. Qed.

Lemma countOf_nonneg s id data : 0 ≤ countOf s id data.
Proof. unfold countOf. lia. Qed.

Lemma countOf_cons s id row data :
  countOf s id (row :: data) =
  (if decide (countryIdOf row = id ∧ sentiment row = Some s) then 1 else 0)
  + countOf s id data.
Proof.
  unfold countOf. rewrite rowsOf_cons.
  destruct (decide (countryIdOf row = id)) as [Hid|Hid].
  - rewrite filter_cons. destruct (decide (sentiment row = Some s)) as [Hs|Hs].
    + rewrite decide_True by done. simpl. lia.
    + rewrite decide_False by tauto. lia.
  - rewrite decide_False by tauto. lia.
Qed.

Lemma countOf_app s id data1 data2 :
  countOf s id (data1 ++ data2) = countOf s id data1 + countOf s id data2.
Proof.
  unfold countOf. rewrite rowsOf_app, filter_app, length_app. lia.
Qed.

Lemma countOf_perm s id data data' :
  data ≡ₚ data' → countOf s id data = countOf s id data'.
Proof. intros Hp. unfold countOf, rowsOf. by rewrite Hp. Qed.

(** The three counts of an identifier add up to the number of its rows
    whose sentiment is 0, 1 or 2. *)
Lemma countOf_total id data :
  Forall (λ row, isValid row) data →
  countOf 2 id data + countOf 1 id data + countOf 0 id data
  = Z.of_nat (length (rowsOf id data)).
Proof.
  induction 1 as [|row data Hv _ IH].
  - reflexivity.
  - rewrite !countOf_cons, rowsOf_cons.
    unfold isValid in Hv. destruct (sentiment row) as [s|] eqn:Hs.
    2:{ by rewrite andb_false_r in Hv. }
    apply andb_prop_elim in Hv as [_ Hv]. apply andb_prop_elim in Hv as [H0 H2].
    apply Is_true_eq_true in H0, H2. apply Z.leb_le in H0, H2.
    destruct (decide (countryIdOf row = id)) as [Hid|Hid].
    + assert (s = 0 ∨ s = 1 ∨ s = 2) as Hs3 by lia.
      destruct Hs3 as [-> | [-> | ->]];
        repeat case_decide; simpl length; try lia;
        exfalso; intuition congruence.
    + repeat case_decide; try lia; exfalso; intuition congruence.
Qed.

(** The entry under the row's key exists when the increment reads it. *)
Lemma tallyRow_defined cd row :
  is_Some (getProp
    (match getProp cd (countryIdOf row) with
     | None => setProp cd (countryIdOf row) (newCounts row)
     | Some _ => cd
     end) (countryIdOf row)).
Proof.
  destruct (getProp cd (countryIdOf row)) as [c|] eqn:Hg.
  - by rewrite Hg.
  - by rewrite getProp_setProp_eq.
Qed.

Lemma getProp_tallyRow cd row id :
  getProp (tallyRow cd row) id =
  if decide (countryIdOf row = id)
  then Some (increment (sentiment row) (default (newCounts row) (getProp cd id)))
  else getProp cd id.
Proof.
  unfold tallyRow.
  destruct (getProp cd (countryIdOf row)) as [c|] eqn:Hg.
  - rewrite Hg. destruct (decide (countryIdOf row = id)) as [<-|Hne].
    + by rewrite getProp_setProp_eq, Hg.
    + by rewrite getProp_setProp_ne.
  - rewrite getProp_setProp_eq.
    destruct (decide (countryIdOf row = id)) as [<-|Hne].
    + by rewrite getProp_setProp_eq, Hg.
    + by rewrite !getProp_setProp_ne.
Qed.

Lemma NoDup_tallyRow cd row : NoDup cd.*1 → NoDup (tallyRow cd row).*1.
Proof.
  intros Hnd. unfold tallyRow.
  destruct (getProp cd (countryIdOf row)) as [c|] eqn:Hg.
  - rewrite Hg. by apply NoDup_setProp.
  - rewrite getProp_setProp_eq. by do 2 apply NoDup_setProp.
Qed.

Lemma NoDup_tally cd data : NoDup cd.*1 → NoDup (foldl tallyRow cd data).*1.
Proof.
  revert cd. induction data as [|row data IH]; intros cd Hnd; simpl; [done|].
  apply IH. by apply NoDup_tallyRow.
Qed.

Lemma tallied_nil c id : tallied c id [] = c.
Proof. destruct c. unfold tallied, countOf. simpl. f_equal; lia. Qed.

Lemma tallied_cons_eq c id row data :
  countryIdOf row = id →
  tallied c id (row :: data) = tallied (increment (sentiment row) c) id data.
Proof.
  intros Hid. unfold tallied. rewrite !countOf_cons. unfold increment.
  repeat case_decide; simpl; f_equal; try lia; exfalso; intuition congruence.
Qed.

Lemma tallied_cons_ne c id row data :
  countryIdOf row ≠ id → tallied c id (row :: data) = tallied c id data.
Proof.
  intros Hid. unfold tallied. rewrite !countOf_cons.
  repeat case_decide; simpl; f_equal; try lia; exfalso; intuition congruence.
Qed.

(** What the loop leaves under each key. *)
Lemma getProp_tally cd data id :
  getProp (foldl tallyRow cd data) id =
  match getProp cd id with
  | Some c => Some (tallied c id data)
  | None => (λ first, tallied (newCounts first) id data) <$> head (rowsOf id data)
  end.
Proof.
  revert cd. induction data as [|row data IH]; intros cd; simpl.
  - destruct (getProp cd id); [by rewrite tallied_nil | done].
  - rewrite IH, getProp_tallyRow, rowsOf_cons.
    destruct (decide (countryIdOf row = id)) as [Hid|Hid].
    + destruct (getProp cd id) as [c|]; simpl; by rewrite tallied_cons_eq.
    + destruct (getProp cd id) as [c|]; simpl; [by rewrite tallied_cons_ne|].
      destruct (head (rowsOf id data)); simpl; [by rewrite tallied_cons_ne | done].
Qed.

(** The loop with its console output. *)
Lemma forEach_processRow data index st :
  forEach processRow data index st =
  (foldl tallyRow st.1 data,
   st.2 ++ imap (λ i row, LogProcessing (index + i) (country row)
                            (countryIdOf row) (sentiment row)) data).
Proof.
  revert index st. induction data as [|row data IH]; intros index [cd out]; simpl.
  - by rewrite app_nil_r.
  - rewrite IH. simpl. f_equal. rewrite <- app_assoc. simpl.
    rewrite Nat.add_0_r. do 2 f_equal. apply imap_ext. intros i x _. simpl.
    f_equal. lia.
Qed.

End TallyFacts.

(** ** The returned array *)

Lemma findById_Some (l : list Entry.t) id e :
  findById l id = Some e → e ∈ l ∧ Entry.id e = id.
Proof.
  unfold findById. induction l as [|x l IH]; simpl; [done|].
  destruct (bool_decide (Entry.id x = id)) eqn:Hx.
  - intros [= ->]. apply bool_decide_eq_true in Hx.
    split; [apply list_elem_of_here | done].
  - intros Hf. destruct (IH Hf) as [Hin Hid].
    split; [by apply list_elem_of_further | done].
Qed.

Lemma elem_findById (l : list Entry.t) e :
  NoDup (Entry.id <$> l) → e ∈ l → findById l (Entry.id e) = Some e.
Proof.
  unfold findById. induction l as [|x l IH]; simpl; intros Hnd Hin.
  - by apply elem_of_nil in Hin.
  - apply NoDup_cons in Hnd as [Hx Hnd].
    apply elem_of_cons in Hin as [->|Hin].
    + by rewrite bool_decide_eq_true_2.
    + rewrite bool_decide_eq_false_2; [by apply IH|].
      intros Heq. apply Hx. rewrite Heq. by apply list_elem_of_fmap_2.
Qed.

Section AggregateFacts.
Context `{Host}.
Implicit Types (data : list Row) (id : string) (e : Entry.t).

Lemma aggregateData_array data :
  (aggregateData data).1 = toEntry <$> Object_entries (foldl tallyRow [] data).
Proof. unfold aggregateData. by rewrite forEach_processRow. Qed.

Lemma aggregateData_console data :
  (aggregateData data).2 =
  imap (λ i row, LogProcessing i (country row) (countryIdOf row) (sentiment row)) data
  ++ [LogAggregated (take 5 (aggregateData data).1)].
Proof. unfold aggregateData. by rewrite forEach_processRow. Qed.

Lemma ids_toEntry (o : list (string * Counts.t)) : Entry.id <$> (toEntry <$> o) = o.*1.
Proof. rewrite <- list_fmap_compose. apply list_fmap_ext. by intros _ [k c] _. Qed.

Lemma findById_toEntry (o : list (string * Counts.t)) id :
  findById (toEntry <$> o) id = (λ c, toEntry (id, c)) <$> getProp o id.
Proof.
  unfold findById. induction o as [|[k c] o IH]; simpl; [done|].
  destruct (decide (k = id)) as [->|Hne].
  - by rewrite bool_decide_eq_true_2.
  - by rewrite bool_decide_eq_false_2.
Qed.

Lemma NoDup_ids data : NoDup (Entry.id <$> (aggregateData data).1).
Proof.
  rewrite aggregateData_array, ids_toEntry, Object_entries_perm.
  apply NoDup_tally. apply NoDup_nil_2.
Qed.

(** Looking an identifier up in the returned array gives the entry read off
    the rows. *)
Lemma findById_aggregateData data id :
  findById (aggregateData data).1 id = entryOf id data.
Proof.
  rewrite aggregateData_array, findById_toEntry.
  rewrite (getProp_perm (foldl tallyRow [] data)).
  2:{ apply NoDup_tally, NoDup_nil_2. }
  2:{ apply Object_entries_perm. }
  rewrite getProp_tally. simpl. unfold entryOf.
  destruct (head (rowsOf id data)) as [first|]; simpl; [|done].
  by rewrite !orZero_id, !Z.add_0_l.
Qed.

Lemma elem_aggregateData data e :
  e ∈ (aggregateData data).1 ↔ entryOf (Entry.id e) data = Some e.
Proof.
  rewrite <- findById_aggregateData. split.
  - apply elem_findById, NoDup_ids.
  - intros Hf. by apply findById_Some in Hf as [? _].
Qed.

Lemma head_rowsOf_Some id data :
  is_Some (head (rowsOf id data)) ↔ id ∈ countryIdOf <$> data.
Proof.
  rewrite list_elem_of_fmap. split.
  - intros [row Hrow]. apply head_Some_elem_of in Hrow.
    apply list_elem_of_filter in Hrow as [? ?]. by exists row.
  - intros (row & -> & Hin).
    assert (row ∈ rowsOf (countryIdOf row) data) as Hr
      by (by apply list_elem_of_filter).
    destruct (rowsOf (countryIdOf row) data); [by apply elem_of_nil in Hr | by eexists].
Qed.

Lemma elem_ids data id :
  id ∈ Entry.id <$> (aggregateData data).1 ↔ id ∈ countryIdOf <$> data.
Proof.
  rewrite <- head_rowsOf_Some. rewrite list_elem_of_fmap. split.
  - intros (e & -> & He). apply elem_aggregateData in He.
    unfold entryOf in He. destruct (head _); [by eexists | done].
  - intros [first Hfirst].
    destruct (entryOf id data) as [e|] eqn:He.
    + exists e. rewrite <- findById_aggregateData in He.
      apply findById_Some in He as [? ?]. done.
    + unfold entryOf in He. by rewrite Hfirst in He.
Qed.

End AggregateFacts.

(** Case analysis on the sentiment of a row: 0, 1, 2 or anything else. *)
Ltac by_sentiment row :=
  destruct (sentiment row) as [[|[[?|?|]|[?|?|]|]|?]|];
  repeat case_decide; simplify_eq; try done; rewrite !pair_equal_spec; lia.

Section AggregateClaims.
Context `{Host}.
Implicit Types (data : list Row) (id : string) (e : Entry.t).

Lemma entryOf_ext id data data' :
  rowsOf id data = rowsOf id data' → entryOf id data = entryOf id data'.
Proof. intros Heq. unfold entryOf, countOf. by rewrite Heq. Qed.

Lemma countOf_no_rows s id data : rowsOf id data = [] → countOf s id data = 0.
Proof. intros Heq. unfold countOf. by rewrite Heq. Qed.

Lemma entryOf_total id data e :
  Forall (λ row, isValid row) data →
  entryOf id data = Some e →
  Entry.total e = Z.of_nat (length (rowsOf id data)) ∧ 1 ≤ Entry.total e.
Proof.
  intros Hv He. unfold entryOf in He.
  destruct (rowsOf id data) as [|first rest] eqn:Hrows; simpl in He; [done|].
  injection He as <-. simpl. rewrite countOf_total, Hrows by done.
  simpl length. lia.
Qed.

Lemma length_setProp {V} (o : list (string * V)) k v :
  (length (setProp o k v) ≤ Datatypes.S (length o))%nat.
Proof.
  induction o as [|[k' v'] o IH]; simpl; [lia|].
  destruct (decide (k' = k)); simpl; lia.
Qed.

Lemma length_tally (cd : list (string * Counts.t)) data :
  (length (foldl tallyRow cd data) ≤ length cd + length data)%nat.
Proof.
  revert cd. induction data as [|row data IH]; intros cd; simpl; [lia|].
  etrans; [apply IH|].
  assert (length (tallyRow cd row) ≤ Datatypes.S (length cd))%nat; [|lia].
  unfold tallyRow. pose proof (tallyRow_defined cd row) as [c Hc].
  rewrite Hc. destruct (getProp cd (countryIdOf row)) as [c'|] eqn:Hg.
  - rewrite keys_length_setProp_present; [lia | by rewrite Hg].
  - rewrite keys_length_setProp_present; [apply length_setProp|].
    by rewrite getProp_setProp_eq.
Qed.

(** C1. For every list of rows, every entry of the array [aggregateData]
    returns has non-negative counts [positive], [neutral] and [negative], and
    its [total] is their sum. *)
Theorem aggregateData_counts data :
  Forall (λ e,
    0 ≤ Entry.positive e ∧ 0 ≤ Entry.neutral e ∧ 0 ≤ Entry.negative e ∧
    Entry.total e = Entry.positive e + Entry.neutral e + Entry.negative e)
    (aggregateData data).1.
Proof.
  apply Forall_forall. intros e He. apply elem_aggregateData in He.
  unfold entryOf in He. destruct (head _) as [first|]; simpl in He; [|done].
  injection He as <-. simpl.
  split_and!; [apply countOf_nonneg.. | done].
Qed.

(** C2. Tallying one more row of sentiment 0 raises the negative count of
    the row's country by one, sentiment 1 its neutral count, sentiment 2 its
    positive count; the two other counts of that country stay as they are,
    and so does the entry of every other country.  (A row of any other
    sentiment changes no count.) *)
Theorem aggregateData_row_increment data1 data2 (row : Row) :
  let id := countryIdOf row in
  let before := (aggregateData (data1 ++ data2)).1 in
  let after := (aggregateData (data1 ++ row :: data2)).1 in
  let '(p, n, g) := countsAt before id in
  countsAt after id =
    match sentiment row with
    | Some 0 => (p, n, g + 1)
    | Some 1 => (p, n + 1, g)
    | Some 2 => (p + 1, n, g)
    | _ => (p, n, g)
    end
  ∧ ∀ id', id' ≠ id → findById after id' = findById before id'.
Proof.
  cbv zeta.
  assert (∀ id', id' ≠ countryIdOf row →
            findById (aggregateData (data1 ++ row :: data2)).1 id'
            = findById (aggregateData (data1 ++ data2)).1 id') as Hother.
  { intros id' Hne. rewrite !findById_aggregateData. apply entryOf_ext.
    rewrite !rowsOf_app, rowsOf_cons. by rewrite decide_False. }
  unfold countsAt. rewrite !findById_aggregateData.
  unfold entryOf. rewrite !rowsOf_app, rowsOf_cons, decide_True by done.
  rewrite !countOf_app, !countOf_cons.
  assert (∀ s,
    (if decide (countryIdOf row = countryIdOf row ∧ sentiment row = Some s)
     then 1 else 0) = if decide (sentiment row = Some s) then 1 else 0) as Hd.
  { intros s. repeat case_decide; try done; exfalso; intuition congruence. }
  rewrite !Hd. clear Hd.
  destruct (rowsOf (countryIdOf row) data1) as [|r1 rest1] eqn:H1; simpl.
  - rewrite !(countOf_no_rows _ _ data1) by done.
    destruct (rowsOf (countryIdOf row) data2) as [|r2 rest2] eqn:H2; simpl.
    + rewrite !(countOf_no_rows _ _ data2) by done.
      split; [|exact Hother].
      by_sentiment row.
    + split; [|exact Hother].
      by_sentiment row.
  - split; [|exact Hother].
    by_sentiment row.
Qed.

(** C5. For a list of kept rows the returned array is a per-country tally:
    it has exactly one entry for each distinct identifier of the rows, and the
    [total] of the entry of an identifier is the number of rows that map to
    it. *)
Theorem aggregateData_per_country data :
  Forall (λ row, isValid row) data →
  Entry.id <$> (aggregateData data).1 ≡ₚ remove_dups (countryIdOf <$> data) ∧
  (∀ id e, findById (aggregateData data).1 id = Some e →
           Entry.total e = Z.of_nat (length (rowsOf id data))) ∧
  (∀ e, e ∈ (aggregateData data).1 →
        Entry.total e = Z.of_nat (length (rowsOf (Entry.id e) data))).
Proof.
  intros Hv. split_and!.
  - apply NoDup_Permutation; [apply NoDup_ids | apply NoDup_remove_dups |].
    intros id. by rewrite elem_ids, elem_of_remove_dups.
  - intros id e He. rewrite findById_aggregateData in He.
    by apply entryOf_total in He as [? _].
  - intros e He. apply elem_aggregateData in He.
    by apply entryOf_total in He as [? _].
Qed.

(** C7. [aggregateData] is defined on every list of rows and passes over it
    once: its console output has one line per row, the line of index [i]
    being about the [i]-th row, followed by the closing line; and the array it
    then builds has at most one entry per row. *)
Theorem aggregateData_single_pass data :
  (aggregateData data).2 =
    imap (λ i row, LogProcessing i (country row) (countryIdOf row) (sentiment row)) data
    ++ [LogAggregated (take 5 (aggregateData data).1)]
  ∧ (length (aggregateData data).1 ≤ length data)%nat.
Proof.
  split; [apply aggregateData_console|].
  rewrite aggregateData_array, length_fmap, Object_entries_perm.
  apply (length_tally [] data).
Qed.

(** C8. For a list of kept rows every entry of the returned array has a
    [total] of at least one, so the guard [total === 0] of [getColorValue]
    is false on it. *)
Theorem aggregateData_total_positive data :
  Forall (λ row, isValid row) data →
  Forall (λ e, 1 ≤ Entry.total e ∧ noData (Some e) = false) (aggregateData data).1.
Proof.
  intros Hv. apply Forall_forall. intros e He. apply elem_aggregateData in He.
  apply entryOf_total in He as [_ Ht]; [|done].
  split; [done|]. simpl. apply bool_decide_eq_false. lia.
Qed.

(** C10. The counts do not depend on the order of the rows: the arrays of two
    permutations of a list hold the same entries up to [displayName] (as a
    whole and under each identifier), and the [displayName] of an entry is the
    country of the first row of its identifier. *)
Theorem aggregateData_permutation data data' :
  data ≡ₚ data' →
  tallyOf <$> (aggregateData data).1 ≡ₚ tallyOf <$> (aggregateData data').1 ∧
  (∀ id, tallyOf <$> findById (aggregateData data).1 id
         = tallyOf <$> findById (aggregateData data').1 id) ∧
  (∀ id e, findById (aggregateData data).1 id = Some e →
           Some (Entry.displayName e) = country <$> head (rowsOf id data)).
Proof.
  intros Hp.
  assert (∀ id, tallyOf <$> findById (aggregateData data).1 id
                = tallyOf <$> findById (aggregateData data').1 id) as Hid.
  { intros id. rewrite !findById_aggregateData. unfold entryOf.
    rewrite !(countOf_perm _ _ data data') by done.
    assert (is_Some (head (rowsOf id data)) ↔ is_Some (head (rowsOf id data'))) as Hd.
    { rewrite !head_rowsOf_Some. by rewrite Hp. }
    destruct (head (rowsOf id data)) as [r|], (head (rowsOf id data')) as [r'|];
      simpl; try done.
    - destruct Hd as [Hd _]. by destruct Hd as [? ?]; [eexists|].
    - destruct Hd as [_ Hd]. by destruct Hd as [? ?]; [eexists|]. }
  split_and!; [|done|].
  - assert (∀ d, NoDup (tallyOf <$> (aggregateData d).1)) as Hnd.
    { intros d. apply (NoDup_fmap_1 fst). rewrite <- list_fmap_compose.
      apply NoDup_ids. }
    assert (∀ d x, x ∈ tallyOf <$> (aggregateData d).1 ↔
                   tallyOf <$> findById (aggregateData d).1 x.1 = Some x) as Hin.
    { intros d x. rewrite list_elem_of_fmap. split.
      - intros (e & -> & He). simpl.
        by rewrite (elem_findById _ e) by (done || apply NoDup_ids).
      - intros Hf. destruct (findById _ _) as [e|] eqn:He; [|done].
        injection Hf as <-. exists e. split; [done|].
        by apply findById_Some in He as [? _]. }
    apply NoDup_Permutation; [apply Hnd.. |].
    intros x. by rewrite !Hin, Hid.
  - intros id e He. rewrite findById_aggregateData in He. unfold entryOf in He.
    destruct (head (rowsOf id data)); simpl in *; [|done]. by injection He as <-.
Qed.

End AggregateClaims.

Lemma aggregateData_per_country_sample :
  Forall (λ row, isValid row) sampleRows ∧
  Entry.id <$> (@aggregateData sampleHost sampleRows).1
    ≡ₚ remove_dups (@countryIdOf sampleHost <$> sampleRows) ∧
  (∀ id e, findById (@aggregateData sampleHost sampleRows).1 id = Some e →
           Entry.total e = Z.of_nat (length (@rowsOf sampleHost id sampleRows))) ∧
  (∀ e, e ∈ (@aggregateData sampleHost sampleRows).1 →
        Entry.total e = Z.of_nat (length (@rowsOf sampleHost (Entry.id e) sampleRows))).
Proof.
  split.
  - repeat constructor.
  - apply (@aggregateData_per_country sampleHost sampleRows). repeat constructor.
Defined.

Lemma aggregateData_total_positive_sample :
  Forall (λ row, isValid row) sampleRows ∧
  Forall (λ e, 1 ≤ Entry.total e ∧ noData (Some e) = false)
    (@aggregateData sampleHost sampleRows).1.
Proof.
  split.
  - repeat constructor.
  - apply (@aggregateData_total_positive sampleHost sampleRows). repeat constructor.
Defined.

Lemma aggregateData_permutation_sample :
  sampleRows ≡ₚ reverse sampleRows ∧
  tallyOf <$> (@aggregateData sampleHost sampleRows).1
    ≡ₚ tallyOf <$> (@aggregateData sampleHost (reverse sampleRows)).1 ∧
  (∀ id, tallyOf <$> findById (@aggregateData sampleHost sampleRows).1 id
         = tallyOf <$> findById (@aggregateData sampleHost (reverse sampleRows)).1 id) ∧
  (∀ id e, findById (@aggregateData sampleHost sampleRows).1 id = Some e →
           Some (Entry.displayName e) = country <$> head (@rowsOf sampleHost id sampleRows)).
Proof.
  split.
  - symmetry. apply reverse_Permutation.
  - apply (@aggregateData_permutation sampleHost sampleRows (reverse sampleRows)).
    symmetry. apply reverse_Permutation.
Defined.

(** The [displayName] does depend on the order: two spellings of a country
    share an identifier, and the first one seen names the entry. *)
Example displayName_depends_on_order :
  Entry.displayName <$> findById (@aggregateData sampleHost sampleRows).1 "INDIA"
    = Some "india" ∧
  Entry.displayName <$> findById (@aggregateData sampleHost (reverse sampleRows)).1 "INDIA"
    = Some "INDIA".
Proof. split; vm_compute; reflexivity. Qed.

(** ** The colour value *)

Lemma ratio_range (a b lo hi : Z) :
  0 < b → lo * b ≤ a ≤ hi * b →
  (inject_Z lo <= inject_Z a / inject_Z b <= inject_Z hi)%Q.
Proof.
  intros Hb [Hlo Hhi].
  assert (0 < inject_Z b)%Q as Hb' by (by rewrite (Zlt_Qlt 0 b) in Hb).
  split.
  - apply Qle_shift_div_l; [exact Hb'|]. rewrite <- inject_Z_mult. by rewrite <- Zle_Qle.
  - apply Qle_shift_div_r; [exact Hb'|]. rewrite <- inject_Z_mult. by rewrite <- Zle_Qle.
Qed.

(** C9. For an aggregate with non-negative counts that sum to a positive
    [total], and for every view, [getColorValue] lies between 0 and 1; the
    overall score lies between -1 and 1, and the value of the overall view is
    that score moved to the interval from 0 to 1. *)
Theorem getColorValue_range (cd : Entry.t) (view : string) :
  0 ≤ Entry.positive cd → 0 ≤ Entry.neutral cd → 0 ≤ Entry.negative cd →
  Entry.total cd = Entry.positive cd + Entry.neutral cd + Entry.negative cd →
  0 < Entry.total cd →
  (0 <= getColorValue (Some cd) view <= 1)%Q ∧
  (-1 <= overallScore cd <= 1)%Q ∧
  (getColorValue (Some cd) "overall" == (overallScore cd + 1) / 2)%Q.
Proof.
  intros Hp Hn Hg Ht Hpos.
  assert (-1 <= overallScore cd <= 1)%Q as Hscore.
  { unfold overallScore. apply (ratio_range _ _ (-1) 1); lia. }
  assert (noData (Some cd) = false) as Hguard.
  { simpl. apply bool_decide_eq_false. lia. }
  split; [|split; [exact Hscore|]].
  - unfold getColorValue. rewrite Hguard.
    repeat case_decide.
    + apply (ratio_range _ _ 0 1); lia.
    + apply (ratio_range _ _ 0 1); lia.
    + apply (ratio_range _ _ 0 1); lia.
    + cbv zeta. destruct Hscore. split.
      * apply Qle_shift_div_l; lra.
      * apply Qle_shift_div_r; lra.
  - unfold getColorValue. rewrite Hguard. simpl. reflexivity.
Qed.

Lemma getColorValue_range_sample :
  (0 <= getColorValue (Some sampleEntry) "overall" <= 1)%Q ∧
  (-1 <= overallScore sampleEntry <= 1)%Q ∧
  (getColorValue (Some sampleEntry) "overall" == (overallScore sampleEntry + 1) / 2)%Q.
Proof.
  apply (getColorValue_range sampleEntry "overall"); simpl; lia.
Defined.

Example getColorValue_sample :
  (getColorValue (Some sampleEntry) "overall" == 7 # 16)%Q ∧
  (getColorValue (Some sampleEntry) "negative" == 1 # 2)%Q.
Proof. split; vm_compute; reflexivity. Qed.

(** ** Keeping rows *)

Lemma truthy_ne_empty (s : string) : truthy s ↔ s ≠ "".
Proof. destruct s; simpl; split; done. Qed.

Lemma filter_fmap_iff {A B} (f : A → B) (P : B → Prop) (Q : A → Prop)
    `{∀ b, Decision (P b)} `{∀ a, Decision (Q a)} (l : list A) :
  (∀ a, P (f a) ↔ Q a) → filter P (f <$> l) = f <$> filter Q l.
Proof.
  intros HPQ. induction l as [|a l IH]; [done|].
  rewrite fmap_cons, !filter_cons.
  destruct (decide (P (f a))) as [HP|HP], (decide (Q a)) as [HQ|HQ].
  - by rewrite fmap_cons, IH.
  - by apply HPQ in HP.
  - by apply HPQ in HQ.
  - done.
Qed.

Lemma isValid_mapRow (ch rh vh : string) (row : gmap string string) :
  isValid (mapRow ch rh vh row) ↔ keptRow ch vh row.
Proof.
  unfold isValid, mapRow, keptRow. simpl.
  rewrite andb_True, truthy_ne_empty.
  destruct (parseInt (row !! vh)) as [s|].
  - rewrite andb_True, !Is_true_true, !Z.leb_le.
    split; intros [Hc Hs]; (split; [done|]).
    + assert (s = 0 ∨ s = 1 ∨ s = 2) as Hs3 by lia.
      destruct Hs3 as [-> | [-> | ->]]; auto.
    + destruct Hs as [Hs | [Hs | Hs]]; injection Hs as ->; lia.
  - split; [intros [_ []] | intros [_ [? | [? | ?]]]; done].
Qed.

(** C4. A parsed row is kept exactly when its country field is not empty
    and its value field parses, by [parseInt] in base 10, to 0, 1 or 2: the
    rows [extractRows] returns are the kept rows, in their order, each mapped
    to its [{country, region, sentiment}] record. *)
Theorem extractRows_kept (parsed : Parsed.t) :
  let headers := Parsed.fields parsed in
  (∀ row, isValid (mapRow (countryHeader headers) (regionHeader headers)
                     (valueHeader headers) row)
          ↔ keptRow (countryHeader headers) (valueHeader headers) row) ∧
  extractRows parsed =
    mapRow (countryHeader headers) (regionHeader headers) (valueHeader headers)
    <$> filter (keptRow (countryHeader headers) (valueHeader headers))
          (Parsed.data parsed).
Proof.
  cbv zeta. split.
  - intros row. apply isValid_mapRow.
  - unfold extractRows. apply filter_fmap_iff. intros row. apply isValid_mapRow.
Qed.

Lemma extractRows_valid (parsed : Parsed.t) :
  Forall (λ row, isValid row) (extractRows parsed).
Proof.
  apply Forall_forall. intros row Hrow. unfold extractRows in Hrow.
  by apply list_elem_of_filter in Hrow as [? _].
Qed.

(** What the map is drawn from: the tally of the rows a CSV yields.  Each of
    its entries counts at least one row. *)
Corollary tally_of_csv_nonempty `{Host} (parsed : Parsed.t) :
  Forall (λ e, 1 ≤ Entry.total e) (aggregateData (extractRows parsed)).1.
Proof.
  apply Forall_forall. intros e He. apply elem_aggregateData in He.
  apply entryOf_total in He as [_ Ht]; [done | apply extractRows_valid].
Qed.

(** ** Headers *)

Lemma toLowerCase_canonicalHeader (h : string) :
  toLowerCase (canonicalHeader h) = toLowerCase h.
Proof.
  unfold canonicalHeader. repeat case_decide; try done.
  all: match goal with Heq : toLowerCase _ = _ |- _ => by rewrite Heq end.
Qed.

Lemma find_fmap {A B} (f : A → B) (p : B → bool) (l : list A) :
  find p (f <$> l) = f <$> find (λ a, p (f a)) l.
Proof.
  induction l as [|a l IH]; simpl; [done|]. by destruct (p (f a)).
Qed.

Lemma find_Some_elem {A} (p : A → bool) (l : list A) (a : A) :
  find p l = Some a → a ∈ l ∧ p a = true.
Proof.
  induction l as [|x l IH]; simpl; [done|].
  destruct (p x) eqn:Hx.
  - intros [= ->]. split; [apply list_elem_of_here | done].
  - intros Hf. destruct (IH Hf). split; [by apply list_elem_of_further | done].
Qed.

Lemma find_None_elem {A} (p : A → bool) (l : list A) :
  find p l = None ↔ ∀ a, a ∈ l → p a = false.
Proof.
  induction l as [|x l IH]; simpl.
  - split; [intros _ a Ha; by apply elem_of_nil in Ha | done].
  - destruct (p x) eqn:Hx.
    + split; [done|]. intros Hall. specialize (Hall x (list_elem_of_here _ _)). congruence.
    + rewrite IH. split.
      * intros Hall a Ha. apply elem_of_cons in Ha as [->|Ha]; [done | by apply Hall].
      * intros Hall a Ha. apply Hall. by apply list_elem_of_further.
Qed.

(** No header matches: the fallback is the key. *)
Lemma findHeader_fallback (headers : list string) (name fallback : string) :
  (∀ h, h ∈ headers → toLowerCase h ≠ name) →
  findHeader headers name fallback = fallback.
Proof.
  intros Hno. unfold findHeader.
  replace (find _ headers) with (@None string); [done|].
  symmetry. apply find_None_elem. intros h Hh.
  apply bool_decide_eq_false. by apply Hno.
Qed.

Lemma expectedHeader_canonical (name fallback : string) :
  expectedHeader name fallback →
  name ≠ "" ∧ toLowerCase fallback = name ∧
  ∀ h, toLowerCase h = name → canonicalHeader h = fallback.
Proof.
  unfold expectedHeader. rewrite !elem_of_cons, elem_of_nil.
  intros [Heq | [Heq | [Heq | []]]]; injection Heq as -> ->;
    (split_and!; [done | done |]); intros h Hh;
    unfold canonicalHeader; rewrite Hh; by repeat case_decide.
Qed.

Lemma canonicalHeader_idemp (h : string) :
  canonicalHeader (canonicalHeader h) = canonicalHeader h.
Proof.
  unfold canonicalHeader.
  destruct (decide (toLowerCase h = "country")); [done|].
  destruct (decide (toLowerCase h = "region")); [done|].
  destruct (decide (toLowerCase h = "randomvalue")); [done|].
  by rewrite !decide_False.
Qed.

(** A header matches: it is the key, whatever its letter case. *)
Lemma findHeader_match (headers : list string) (name fallback h : string) :
  NoDup (canonicalHeader <$> headers) → expectedHeader name fallback →
  h ∈ headers → toLowerCase h = name →
  findHeader headers name fallback = h.
Proof.
  intros Hnd Hexp Hh Hlow. unfold findHeader.
  apply expectedHeader_canonical in Hexp as (Hname & _ & Hcanon).
  destruct (find _ headers) as [h'|] eqn:Hf.
  - apply find_Some_elem in Hf as [Hh' Hlow']. apply bool_decide_eq_true in Hlow'.
    assert (h' = h) as ->.
    { apply list_elem_of_lookup in Hh as [i Hi]. apply list_elem_of_lookup in Hh' as [j Hj].
      assert (i = j) as ->; [|congruence].
      apply (NoDup_lookup _ i j fallback Hnd); rewrite list_lookup_fmap.
      - rewrite Hi. simpl. f_equal. by apply Hcanon.
      - rewrite Hj. simpl. f_equal. by apply Hcanon. }
    simpl. destruct h; [|done]. simpl in Hlow. congruence.
  - rewrite find_None_elem in Hf. specialize (Hf h Hh).
    apply bool_decide_eq_false in Hf. done.
Qed.

Lemma papaRow_step_notin (fields values : list string) (k : string)
    (m : gmap string string) :
  k ∉ fields →
  foldl (λ row fv, <[fv.1 := trim fv.2]> row) m (zip fields values) !! k = m !! k.
Proof.
  revert values m. induction fields as [|f fields IH]; intros values m Hk; [done|].
  apply not_elem_of_cons in Hk as [Hkf Hk].
  destruct values as [|v values]; [done|]. simpl.
  rewrite IH by done. by rewrite lookup_insert_ne.
Qed.

Lemma papaRow_step_at (fields values : list string) (i : nat) (k : string)
    (m : gmap string string) :
  NoDup fields → fields !! i = Some k →
  foldl (λ row fv, <[fv.1 := trim fv.2]> row) m (zip fields values) !! k =
  match values !! i with Some v => Some (trim v) | None => m !! k end.
Proof.
  revert values i m. induction fields as [|f fields IH]; intros values i m Hnd Hi; [done|].
  apply NoDup_cons in Hnd as [Hf Hnd].
  destruct values as [|v values]; [done|]. simpl.
  destruct i as [|i]; simpl in *.
  - injection Hi as ->. rewrite papaRow_step_notin by done.
    by rewrite lookup_insert_eq.
  - rewrite (IH _ i) by done.
    destruct (values !! i); [done|]. rewrite lookup_insert_ne; [done|].
    intros ->. apply Hf. by apply list_elem_of_lookup_2 in Hi.
Qed.

(** A field that is a header reads the trimmed value of its column. *)
Lemma papaRow_lookup (fields values : list string) (i : nat) (k : string) :
  NoDup fields → fields !! i = Some k →
  papaRow fields values !! k = trim <$> values !! i.
Proof.
  intros Hnd Hi. unfold papaRow. rewrite (papaRow_step_at _ _ i) by done.
  by destruct (values !! i).
Qed.

Lemma papaRow_lookup_notin (fields values : list string) (k : string) :
  k ∉ fields → papaRow fields values !! k = None.
Proof. intros Hk. unfold papaRow. by rewrite papaRow_step_notin. Qed.

Lemma canonical_canonical_fields (fields : list string) :
  canonicalHeader <$> (canonicalHeader <$> fields) = canonicalHeader <$> fields.
Proof.
  rewrite <- list_fmap_compose. apply list_fmap_ext.
  intros _ h _. apply canonicalHeader_idemp.
Qed.

(** Reading the column of an expected name gives the same value under the
    headers as written and under their canonical spelling. *)
Lemma lookup_canonical (fields values : list string) (name fallback : string) :
  NoDup (canonicalHeader <$> fields) → expectedHeader name fallback →
  papaRow (canonicalHeader <$> fields) values
    !! findHeader (canonicalHeader <$> fields) name fallback
  = papaRow fields values !! findHeader fields name fallback.
Proof.
  intros Hnd Hexp.
  assert (NoDup fields) as Hnd1 by (by apply (NoDup_fmap_1 canonicalHeader)).
  assert (NoDup (canonicalHeader <$> (canonicalHeader <$> fields))) as Hnd2
    by (by rewrite canonical_canonical_fields).
  pose proof (expectedHeader_canonical _ _ Hexp) as (Hname & Hfb & Hcanon).
  destruct (find (λ h, bool_decide (toLowerCase h = name)) fields) as [h|] eqn:Hf.
  - apply find_Some_elem in Hf as [Hh Hlow]. apply bool_decide_eq_true in Hlow.
    rewrite (findHeader_match fields name fallback h) by done.
    rewrite (findHeader_match _ name fallback (canonicalHeader h)); [|done..| |].
    2:{ by apply list_elem_of_fmap_2. }
    2:{ by rewrite toLowerCase_canonicalHeader. }
    apply list_elem_of_lookup in Hh as [i Hi].
    rewrite (papaRow_lookup fields values i) by done.
    rewrite (papaRow_lookup _ values i); [done | done |].
    by rewrite list_lookup_fmap, Hi.
  - rewrite find_None_elem in Hf.
    assert (∀ h, h ∈ fields → toLowerCase h ≠ name) as Hno.
    { intros h Hh. specialize (Hf h Hh). by apply bool_decide_eq_false in Hf. }
    rewrite (findHeader_fallback fields) by done.
    rewrite (findHeader_fallback (canonicalHeader <$> fields)).
    2:{ intros h' Hh'. apply list_elem_of_fmap in Hh' as (h & -> & Hh).
        rewrite toLowerCase_canonicalHeader. by apply Hno. }
    rewrite !papaRow_lookup_notin; [done | |].
    + intros Hin. by apply (Hno fallback).
    + intros Hin. apply list_elem_of_fmap in Hin as (h & Heq & Hh).
      apply (Hno h Hh). by rewrite <- toLowerCase_canonicalHeader, <- Heq.
Qed.

(** C6. Headers are matched without regard to letter case.  Take a header
    row whose canonical spelling ([Country], [Region], [RandomValue] for the
    headers that are these names up to case) has no column twice.  The rows
    extracted under the headers as written are the rows extracted under the
    canonical spelling; a header that is an expected name up to case is the
    key of its column; and when no header is an expected name up to case, the
    literal [Country], [Region] or [RandomValue] is the key. *)
Theorem headers_case_insensitive (fields : list string) (records : list (list string)) :
  NoDup (canonicalHeader <$> fields) →
  extractRows (papaRows fields records)
    = extractRows (papaRows (canonicalHeader <$> fields) records) ∧
  (∀ h, h ∈ fields →
     (toLowerCase h = "country" → countryHeader fields = h) ∧
     (toLowerCase h = "region" → regionHeader fields = h) ∧
     (toLowerCase h = "randomvalue" → valueHeader fields = h)) ∧
  ((∀ h, h ∈ fields → toLowerCase h ≠ "country") → countryHeader fields = "Country") ∧
  ((∀ h, h ∈ fields → toLowerCase h ≠ "region") → regionHeader fields = "Region") ∧
  ((∀ h, h ∈ fields → toLowerCase h ≠ "randomvalue") →
     valueHeader fields = "RandomValue").
Proof.
  intros Hnd.
  assert (expectedHeader "country" "Country") as Hc by (unfold expectedHeader; set_solver).
  assert (expectedHeader "region" "Region") as Hr by (unfold expectedHeader; set_solver).
  assert (expectedHeader "randomvalue" "RandomValue") as Hv
    by (unfold expectedHeader; set_solver).
  split_and!.
  - unfold extractRows, papaRows. simpl. f_equal.
    rewrite <- !list_fmap_compose. apply list_fmap_ext. intros _ values _. simpl.
    unfold mapRow, countryHeader, regionHeader, valueHeader.
    by rewrite !lookup_canonical.
  - intros h Hh. split_and!; intros Hlow; by apply findHeader_match.
  - apply findHeader_fallback.
  - apply findHeader_fallback.
  - apply findHeader_fallback.
Qed.

Lemma headers_case_insensitive_sample :
  NoDup (canonicalHeader <$> sampleFields) ∧
  extractRows (papaRows sampleFields sampleRecords)
    = extractRows (papaRows ["Country"; "Notes"; "Region"; "RandomValue"] sampleRecords).
Proof.
  split.
  - apply (bool_decide_unpack _). vm_compute. exact I.
  - apply (headers_case_insensitive sampleFields sampleRecords).
    apply (bool_decide_unpack _). vm_compute. exact I.
Defined.

Example sample_records_rows :
  extractRows (papaRows sampleFields sampleRecords) =
  [ {| country := "India"; region := "Asia"; sentiment := Some 2 |};
    {| country := "Peru"; region := "America"; sentiment := Some 1 |} ].
Proof. vm_compute. reflexivity. Qed.

(** ** Loading *)

Example load_not_found :
  @loadCsv sampleHost (Fulfilled notFound) =
  [Fetch "/geo_sentiments.csv";
   SetError "Failed to load data: HTTP error: 404 Not Found"].
Proof. vm_compute. reflexivity. Qed.

Example load_offline :
  render (run (@loadCsv sampleHost (Rejected "Failed to fetch"))) =
  ErrorView "Failed to load data: Failed to fetch".
Proof. vm_compute. reflexivity. Qed.

Example load_no_rows :
  render (run (@loadCsv sampleHost (Fulfilled (served "a,b,c")))) = ErrorView noValidData.
Proof. vm_compute. reflexivity. Qed.

Example load_sample :
  render (run (@loadCsv sampleHost (Fulfilled (served sampleCsv)))) =
  Dashboard
    [ {| country := "India"; region := "Asia"; sentiment := Some 2 |};
      {| country := "india"; region := "Asia"; sentiment := Some 0 |};
      {| country := "France"; region := "Europe"; sentiment := Some 1 |} ].
Proof. vm_compute. reflexivity. Qed.

(** C3, as stated, fails: no single message is the error of every failed
    fetch.  A response 404 and a response 500 are both failed fetches, and
    they leave different messages in the error state. *)
Lemma load_error_not_fixed :
  ¬ ∃ fixed : string, ∀ (fetched : Promise Response) (message : string),
      fetchFails fetched message →
      State.error (run (@loadCsv sampleHost fetched)) = Some fixed.
Proof.
  intros [fixed Hfixed].
  pose proof (Hfixed (Fulfilled notFound) _ eq_refl) as H404.
  pose proof (Hfixed (Fulfilled serverError) _ eq_refl) as H500.
  vm_compute in H404, H500. congruence.
Qed.

(** C3, amended.  The load sends one request and never another.  When the
    fetch fails, the error state is [Failed to load data: ] followed by the
    message of the failure, the data state stays empty and the error view is
    rendered.  When the fetch succeeds and no valid row remains, the error
    state is the fixed message [noValidData], the data state stays empty and
    the error view is rendered.  Only when at least one valid row remains is
    the data state set, to those rows, and the dashboard rendered. *)
Theorem loadCsv_outcome `{Host} (fetched : Promise Response) :
  let st := run (loadCsv fetched) in
  fetches (loadCsv fetched) = 1%nat ∧
  match andThen fetched checkResponse with
  | Rejected message =>
      st = {| State.data := [];
              State.error := Some ("Failed to load data: " +:+ message) |} ∧
      render st = ErrorView ("Failed to load data: " +:+ message)
  | Fulfilled csv =>
      match extractRows (Papa_parse csv) with
      | [] =>
          st = {| State.data := []; State.error := Some noValidData |} ∧
          render st = ErrorView noValidData
      | row :: rows =>
          st = {| State.data := row :: rows; State.error := None |} ∧
          render st = Dashboard (row :: rows) ∧
          Forall (λ r, isValid r) (row :: rows)
      end
  end.
Proof.
  cbv zeta. unfold loadCsv.
  split.
  - unfold fetches. rewrite filter_cons_True by done.
    rewrite filter_cons_False; [done|].
    destruct (andThen fetched checkResponse) as [csv|message]; simpl; [|tauto].
    unfold onCsv. case_decide; simpl; tauto.
  - destruct (andThen fetched checkResponse) as [csv|message]; simpl.
    + unfold onCsv. pose proof (extractRows_valid (Papa_parse csv)) as Hvalid.
      destruct (extractRows (Papa_parse csv)) as [|row rows].
      * rewrite decide_True by done. by vm_compute.
      * rewrite decide_False by done. by vm_compute.
    + by vm_compute.
Qed.

(** * Further properties *)

(** ** The reverse table *)

Section ReverseTable.
Context {V : Type}.
Implicit Types (o : list (string * V)) (k : string) (v : V).

Lemma getProp_app o1 o2 k :
  getProp (o1 ++ o2) k = from_option Some (getProp o2 k) (getProp o1 k).
Proof.
  induction o1 as [|[k' v'] o1 IH]; simpl; [done|].
  by destruct (decide (k' = k)).
Qed.

Lemma getProp_setProp o k k' v :
  getProp (setProp o k v) k' = if decide (k = k') then Some v else getProp o k'.
Proof.
  destruct (decide (k = k')) as [<-|Hne].
  - apply getProp_setProp_eq.
  - by apply getProp_setProp_ne.
Qed.

(** Of several entries under one key the last is the one that stays. *)
Lemma getProp_fromEntries_from o (entries : list (string * V)) k :
  getProp (foldl (λ o kv, setProp o kv.1 kv.2) o entries) k =
  from_option Some (getProp o k) (getProp (reverse entries) k).
Proof.
  revert o. induction entries as [|[k' v'] entries IH]; intros o; simpl; [done|].
  rewrite IH, reverse_cons, getProp_app. simpl.
  destruct (getProp (reverse entries) k); simpl; [done|].
  rewrite getProp_setProp. by destruct (decide (k' = k)).
Qed.

Lemma getProp_fromEntries (entries : list (string * V)) k :
  getProp (Object_fromEntries entries) k = getProp (reverse entries) k.
Proof.
  unfold Object_fromEntries. rewrite getProp_fromEntries_from. simpl.
  by destruct (getProp (reverse entries) k).
Qed.

End ReverseTable.

Lemma idToCountryName_elem (table : list (string * string)) (id name : string) :
  getProp (idToCountryName table) id = Some name → (name, id) ∈ table.
Proof.
  unfold idToCountryName. rewrite getProp_fromEntries. intros Hg.
  apply getProp_Some_elem in Hg. rewrite elem_of_reverse in Hg.
  apply list_elem_of_fmap in Hg as ([name' id'] & [= -> ->] & Hin).
  by rewrite Object_entries_perm in Hin.
Qed.

Lemma idToCountryName_defined (table : list (string * string)) (id name : string) :
  (name, id) ∈ table → is_Some (getProp (idToCountryName table) id).
Proof.
  intros Hin. unfold idToCountryName. rewrite getProp_fromEntries.
  destruct (getProp _ id) as [name'|] eqn:Hg; [by eexists|].
  apply getProp_None in Hg. exfalso. apply Hg.
  apply list_elem_of_fmap. exists (id, name). split; [done|].
  rewrite elem_of_reverse. apply list_elem_of_fmap. exists (name, id).
  split; [done|]. by rewrite Object_entries_perm.
Qed.

(** X1. Every entry of the reverse table comes from the table: the name it
    gives for an identifier is a name the table maps to that identifier; and
    every identifier of the table has an entry in the reverse table. *)
Theorem idToCountryName_sound (table : list (string * string)) :
  NoDup table.*1 →
  (∀ id name, getProp (idToCountryName table) id = Some name →
              getProp table name = Some id) ∧
  (∀ name id, getProp table name = Some id →
              ∃ name', getProp (idToCountryName table) id = Some name' ∧
                       getProp table name' = Some id).
Proof.
  intros Hnd. split.
  - intros id name Hg. apply elem_getProp; [done|]. by apply idToCountryName_elem.
  - intros name id Hg. apply getProp_Some_elem in Hg.
    destruct (idToCountryName_defined table id name Hg) as [name' Hname'].
    exists name'. split; [done|].
    apply elem_getProp; [done|]. by apply idToCountryName_elem.
Qed.

Lemma idToCountryName_sound_sample :
  NoDup sampleTable.*1 ∧
  (∀ id name, getProp (idToCountryName sampleTable) id = Some name →
              getProp sampleTable name = Some id).
Proof.
  split.
  - apply (bool_decide_unpack _). vm_compute. exact I.
  - apply (idToCountryName_sound sampleTable).
    apply (bool_decide_unpack _). vm_compute. exact I.
Defined.

(** X2. When no two names of the table share an identifier, the reverse
    table is the inverse of the table. *)
Theorem idToCountryName_inverse (table : list (string * string)) (id name : string) :
  NoDup table.*1 → NoDup table.*2 →
  getProp (idToCountryName table) id = Some name ↔ getProp table name = Some id.
Proof.
  intros Hnd1 Hnd2. split.
  - intros Hg. apply elem_getProp; [done|]. by apply idToCountryName_elem.
  - intros Hg. apply getProp_Some_elem in Hg.
    destruct (idToCountryName_defined table id name Hg) as [name' Hname'].
    rewrite Hname'. f_equal.
    apply idToCountryName_elem in Hname'.
    apply list_elem_of_lookup in Hg as [i Hi]. apply list_elem_of_lookup in Hname' as [j Hj].
    assert (i = j) as ->; [|congruence].
    apply (NoDup_lookup _ i j id Hnd2); rewrite list_lookup_fmap.
    + by rewrite Hi.
    + by rewrite Hj.
Qed.

Lemma idToCountryName_inverse_sample :
  getProp (idToCountryName (take 3 sampleTable)) "FR" = Some "France"
  ↔ getProp (take 3 sampleTable) "France" = Some "FR".
Proof.
  apply (idToCountryName_inverse (take 3 sampleTable) "FR" "France");
    apply (bool_decide_unpack _); vm_compute; exact I.
Defined.

(** With two names for one identifier, the name written later is the one the
    reverse table keeps. *)
Example idToCountryName_alias :
  getProp (idToCountryName sampleTable) "US" = Some "United States of America".
Proof. vm_compute. reflexivity. Qed.

(** ** More about the tally *)

Section TallyMore.
Context `{Host}.
Implicit Types (data : list Row) (id : string) (e : Entry.t).

Lemma countsAt_aggregateData data id :
  countsAt (aggregateData data).1 id
  = (countOf 2 id data, countOf 1 id data, countOf 0 id data).
Proof.
  unfold countsAt. rewrite findById_aggregateData. unfold entryOf.
  destruct (rowsOf id data) as [|first rest] eqn:Hrows; simpl; [|done].
  by rewrite !countOf_no_rows.
Qed.

(** X3. Tallies compose: the counts of a country over two lists of rows put
    one after the other are the sums of its counts over each list. *)
Theorem aggregateData_app data1 data2 id :
  countsAt (aggregateData (data1 ++ data2)).1 id
  = addCounts (countsAt (aggregateData data1).1 id)
              (countsAt (aggregateData data2).1 id).
Proof.
  rewrite !countsAt_aggregateData. unfold addCounts. simpl.
  by rewrite !countOf_app.
Qed.

Lemma countOf_sum id data :
  countOf 2 id data + countOf 1 id data + countOf 0 id data
  = Z.of_nat (length (filter countedRow (rowsOf id data))).
Proof.
  induction data as [|row data IH]; [done|].
  rewrite !countOf_cons, rowsOf_cons.
  destruct (decide (countryIdOf row = id)) as [Hid|Hid].
  - rewrite filter_cons. unfold countedRow at 1.
    repeat case_decide; simpl length; try lia; exfalso; intuition congruence.
  - repeat case_decide; try lia; exfalso; intuition congruence.
Qed.

Lemma entryOf_total_counted id data e :
  entryOf id data = Some e →
  Entry.total e = Z.of_nat (length (filter countedRow (rowsOf id data))).
Proof.
  intros He. unfold entryOf in He.
  destruct (head (rowsOf id data)); simpl in He; [|done].
  injection He as <-. simpl. apply countOf_sum.
Qed.

(** X5. On any list of rows, kept or not: an identifier has an entry exactly
    when some row maps to it, and the [total] of the entry is the number of
    its rows whose sentiment is 0, 1 or 2.  (An identifier whose rows all
    carry another sentiment has an entry with total 0.) *)
Theorem aggregateData_any_rows data :
  (∀ id, is_Some (findById (aggregateData data).1 id) ↔ id ∈ countryIdOf <$> data) ∧
  (∀ id e, findById (aggregateData data).1 id = Some e →
           Entry.total e = Z.of_nat (length (filter countedRow (rowsOf id data)))).
Proof.
  split.
  - intros id. rewrite findById_aggregateData, <- head_rowsOf_Some. unfold entryOf.
    apply fmap_is_Some.
  - intros id e He. rewrite findById_aggregateData in He.
    by apply entryOf_total_counted.
Qed.

Lemma sum_by_id_cons (l : list string) row data :
  NoDup l →
  foldr Z.add 0
    ((λ id, Z.of_nat (length (filter countedRow (rowsOf id (row :: data))))) <$> l)
  = (if decide (countryIdOf row ∈ l ∧ countedRow row) then 1 else 0)
    + foldr Z.add 0 ((λ id, Z.of_nat (length (filter countedRow (rowsOf id data)))) <$> l).
Proof.
  induction l as [|id l IHl]; intros Hl.
  - rewrite decide_False; [reflexivity|]. intros [Hx _]. by apply elem_of_nil in Hx.
  - apply NoDup_cons in Hl as [Hid Hl].
    rewrite !fmap_cons. cbn [foldr]. rewrite IHl by done.
    rewrite rowsOf_cons.
    destruct (decide (countryIdOf row = id)) as [Heq|Hne].
    + rewrite filter_cons. subst id.
      destruct (decide (countedRow row)) as [Hc|Hc].
      * rewrite (decide_True (P := _ ∈ _ :: _ ∧ _))
          by (split; [apply list_elem_of_here | done]).
        rewrite decide_False by (intros [? _]; done). simpl length. lia.
      * rewrite !decide_False by (intros [_ ?]; done). lia.
    + destruct (decide (countedRow row)) as [Hc|Hc].
      * destruct (decide (countryIdOf row ∈ l)) as [Hl'|Hl'].
        -- rewrite (decide_True (P := _ ∈ l ∧ _)) by done.
           rewrite (decide_True (P := _ ∈ _ :: l ∧ _))
             by (split; [by apply list_elem_of_further | done]).
           lia.
        -- rewrite (decide_False (P := _ ∈ l ∧ _)) by tauto.
           rewrite (decide_False (P := _ ∈ _ :: l ∧ _)); [lia|].
           rewrite elem_of_cons. intros [[?|?] _]; done.
      * rewrite !decide_False by (intros [_ ?]; done). lia.
Qed.

Lemma sum_by_id (ids : list string) data :
  NoDup ids → (∀ row, row ∈ data → countryIdOf row ∈ ids) →
  foldr Z.add 0 ((λ id, Z.of_nat (length (filter countedRow (rowsOf id data)))) <$> ids)
  = Z.of_nat (length (filter countedRow data)).
Proof.
  intros Hnd. induction data as [|row data IH]; intros Hin.
  - clear. induction ids as [|id ids IHids]; csimpl in *; [done | lia].
  - rewrite sum_by_id_cons by done.
    rewrite IH by (intros r Hr; apply Hin; by apply list_elem_of_further).
    rewrite filter_cons.
    specialize (Hin row (list_elem_of_here _ _)).
    destruct (decide (countedRow row)) as [Hc|Hc].
    + rewrite decide_True by done. simpl length. lia.
    + rewrite decide_False by (intros [_ ?]; done). lia.
Qed.

Lemma isValid_counted row : isValid row → countedRow row.
Proof.
  unfold isValid, countedRow. intros Hrow.
  destruct (sentiment row) as [s|]; [|by rewrite andb_false_r in Hrow].
  apply andb_prop_elim in Hrow as [_ Hs]. apply andb_prop_elim in Hs as [H0 H2].
  apply Is_true_eq_true in H0, H2. apply Z.leb_le in H0, H2.
  assert (s = 0 ∨ s = 1 ∨ s = 2) as Hs3 by lia.
  destruct Hs3 as [-> | [-> | ->]]; auto.
Qed.

Lemma filter_counted_valid data :
  Forall (λ row, isValid row) data → filter countedRow data = data.
Proof.
  induction 1 as [|row data Hrow _ IH]; [done|].
  rewrite filter_cons_True by (by apply isValid_counted). by rewrite IH.
Qed.

(** X4. No row is lost and none is counted twice: the [total] fields of the
    returned array add up to the number of rows whose sentiment is 0, 1 or 2,
    which for kept rows is the number of rows. *)
Theorem aggregateData_conservation data :
  sumTotals (aggregateData data).1 = Z.of_nat (length (filter countedRow data)) ∧
  (Forall (λ row, isValid row) data →
   sumTotals (aggregateData data).1 = Z.of_nat (length data)).
Proof.
  assert (sumTotals (aggregateData data).1 = Z.of_nat (length (filter countedRow data)))
    as Hsum.
  { unfold sumTotals.
    rewrite <- (sum_by_id (Entry.id <$> (aggregateData data).1) data).
    - f_equal. rewrite <- list_fmap_compose. apply list_fmap_ext.
      intros i e Hi. simpl. apply entryOf_total_counted.
      apply elem_aggregateData. by apply list_elem_of_lookup_2 in Hi.
    - apply NoDup_ids.
    - intros row Hrow. apply elem_ids. by apply list_elem_of_fmap_2. }
  split; [done|]. intros Hv. rewrite Hsum. by rewrite filter_counted_valid.
Qed.

End TallyMore.

Example aggregateData_uncounted_row :
  (@aggregateData sampleHost [{| country := "Peru"; region := ""; sentiment := None |}]).1
  = [ {| Entry.id := "PERU"; Entry.displayName := "Peru"; Entry.positive := 0;
         Entry.neutral := 0; Entry.negative := 0; Entry.total := 0 |} ].
Proof. vm_compute. reflexivity. Qed.

Lemma aggregateData_conservation_sample :
  Forall (λ row, isValid row) sampleRows ∧
  sumTotals (@aggregateData sampleHost sampleRows).1 = Z.of_nat (length sampleRows).
Proof.
  split.
  - repeat constructor.
  - apply (@aggregateData_conservation sampleHost sampleRows). repeat constructor.
Defined.

(** ** More about the extraction of rows *)

Lemma expected_not_in_fields (fields : list string) (name fallback : string) :
  toLowerCase fallback = name →
  (∀ h, h ∈ fields → toLowerCase h ≠ name) →
  findHeader fields name fallback = fallback ∧ fallback ∉ fields.
Proof.
  intros Hfb Hno. split; [by apply findHeader_fallback|].
  intros Hin. by apply (Hno fallback).
Qed.

Lemma extractRows_missing_column (fields : list string) (records : list (list string)) :
  (∀ h, h ∈ fields → toLowerCase h ≠ "country") ∨
  (∀ h, h ∈ fields → toLowerCase h ≠ "randomvalue") →
  extractRows (papaRows fields records) = [].
Proof.
  intros Hmissing. unfold extractRows, papaRows. simpl.
  induction records as [|values records IH]; [done|].
  rewrite fmap_cons, fmap_cons, filter_cons_False; [exact IH|].
  rewrite isValid_mapRow. unfold keptRow. destruct Hmissing as [Hno|Hno].
  - destruct (expected_not_in_fields fields "country" "Country" eq_refl Hno) as [Hh Hnotin].
    unfold countryHeader.
    rewrite Hh, (papaRow_lookup_notin fields values "Country") by done. simpl. tauto.
  - destruct (expected_not_in_fields fields "randomvalue" "RandomValue" eq_refl Hno)
      as [Hh Hnotin].
    unfold valueHeader.
    rewrite Hh, (papaRow_lookup_notin fields values "RandomValue") by done.
    intros [_ [Hp | [Hp | Hp]]]; vm_compute in Hp; congruence.
Qed.

(** X6. A CSV whose header row has no country column, or no value column
    (under any letter case), yields no row at all: the load ends with the
    message that no valid data was found. *)
Theorem onCsv_missing_column `{Host} (csv : string) :
  (∀ h, h ∈ (csvRecords csv).1 → toLowerCase h ≠ "country") ∨
  (∀ h, h ∈ (csvRecords csv).1 → toLowerCase h ≠ "randomvalue") →
  extractRows (Papa_parse csv) = [] ∧ onCsv csv = SetError noValidData.
Proof.
  intros Hmissing.
  assert (extractRows (Papa_parse csv) = []) as Hrows.
  { unfold Papa_parse. destruct (csvRecords csv) as [fields records].
    by apply extractRows_missing_column. }
  split; [done|]. unfold onCsv. by rewrite Hrows.
Qed.

Lemma onCsv_missing_column_sample :
  @onCsv sampleHost ("Land,RandomValue" +:+ newline +:+ "India,2" +:+ newline)
  = SetError noValidData.
Proof.
  apply (@onCsv_missing_column sampleHost). left.
  intros h Hh. vm_compute in Hh.
  apply elem_of_cons in Hh as [->|Hh]; [by vm_compute|].
  apply elem_of_cons in Hh as [->|Hh]; [by vm_compute|].
  by apply elem_of_nil in Hh.
Defined.

(** X7. The value column is read leniently: a value that starts with the
    digit 0, 1 or 2 and goes on with anything but a digit is taken as that
    sentiment (so [1.9] is 1 and [2nd] is 2), and the row is kept when its
    country is not empty. *)
Theorem value_read_leniently (countryHeader regionHeader valueHeader : string)
    (row : gmap string string) (c : ascii) (rest : string) :
  row !! valueHeader = Some (String c rest) →
  c = "0"%char ∨ c = "1"%char ∨ c = "2"%char →
  startsWithDigit rest = false →
  orElse (row !! countryHeader) "" ≠ "" →
  sentiment (mapRow countryHeader regionHeader valueHeader row) = Some (digitValue c) ∧
  isValid (mapRow countryHeader regionHeader valueHeader row).
Proof.
  intros Hv Hc Hrest Hcountry.
  assert (parseInt (Some (String c rest)) = Some (digitValue c)) as Hparse.
  { destruct rest as [|c' rest]; [by destruct Hc as [-> | [-> | ->]]|].
    simpl in Hrest.
    destruct Hc as [-> | [-> | ->]]; unfold parseInt, parseDigits; simpl;
      by rewrite Hrest. }
  unfold isValid, mapRow. simpl. rewrite Hv, Hparse. split; [done|].
  apply andb_True. split; [by apply truthy_ne_empty|].
  by destruct Hc as [-> | [-> | ->]].
Qed.

Lemma value_read_leniently_sample :
  sentiment (mapRow "Country" "Region" "RandomValue"
               (papaRow ["Country"; "RandomValue"] ["Peru"; "1.9"])) = Some 1.
Proof.
  apply (value_read_leniently "Country" "Region" "RandomValue"
           (papaRow ["Country"; "RandomValue"] ["Peru"; "1.9"]) "1"%char ".9");
    [reflexivity | by right; left | reflexivity | by vm_compute].
Defined.

(** ** More about the colour value *)

Lemma noData_false (cd : Entry.t) : Entry.total cd ≠ 0 → noData (Some cd) = false.
Proof. intros Ht. simpl. by apply bool_decide_eq_false. Qed.






(** ** [getColor] *)

Lemma orOne_id (n : Z) : n ≠ 0 → orOne n = n.
Proof. intros Hn. unfold orOne. by rewrite decide_False. Qed.

Lemma Qle_ratio (num : Z) (den : positive) (a t : Z) :
  0 < t →
  (num # den <= inject_Z a / inject_Z t)%Q ↔ num * t ≤ Z.pos den * a.
Proof.
  intros Ht.
  assert (0 < inject_Z t)%Q as Ht' by (by rewrite (Zlt_Qlt 0 t) in Ht).
  assert ((num # den) * inject_Z t <= inject_Z a ↔ num * t ≤ Z.pos den * a)%Q as Hz.
  { unfold Qle, Qmult, inject_Z. simpl. rewrite Pos.mul_1_r. lia. }
  rewrite <- Hz. split.
  - intros Hle. apply (Qmult_le_compat_r _ _ (inject_Z t)) in Hle; [|by apply Qlt_le_weak].
    assert (inject_Z a / inject_Z t * inject_Z t == inject_Z a)%Q as Hcancel.
    { field. intros Heq. rewrite Heq in Ht'. by apply Qlt_irrefl in Ht'. }
    by rewrite Hcancel in Hle.
  - intros Hle. by apply Qle_shift_div_l.
Qed.

(** X10. The overall colour of [getColor], in terms of the counts: green when
    the positive rows are at least the neutral rows plus three times the
    negative ones, else yellow when the negative rows are at most three times
    the positive rows plus the neutral ones, else red; never the grey of a
    country without data. *)
Theorem getColor_overall (cd : Entry.t) (view : string) :
  view ≠ "positive" → view ≠ "neutral" → view ≠ "negative" →
  Entry.total cd = Entry.positive cd + Entry.neutral cd + Entry.negative cd →
  0 < Entry.total cd →
  getColor (Some cd) view =
    if decide (Entry.neutral cd + 3 * Entry.negative cd ≤ Entry.positive cd)
    then am5_color 0x00ff00
    else if decide (Entry.negative cd ≤ 3 * Entry.positive cd + Entry.neutral cd)
    then am5_color 0xffff00
    else am5_color 0xff0000.
Proof.
  intros Hp Hn Hg Ht Hpos. unfold getColor.
  rewrite !decide_False by done. cbv zeta.
  rewrite !orZero_id, orOne_id by lia.
  destruct (Qle_bool (3 # 2) _) eqn:Hgreen.
  - apply Qle_bool_iff, Qle_ratio in Hgreen; [|done].
    rewrite decide_True; [done | lia].
  - rewrite decide_False.
    2:{ intros Hle. apply not_true_iff_false in Hgreen. apply Hgreen.
        apply Qle_bool_iff, Qle_ratio; [done | lia]. }
    destruct (Qle_bool (1 # 2) _) eqn:Hyellow.
    + apply Qle_bool_iff, Qle_ratio in Hyellow; [|done].
      rewrite decide_True; [done | lia].
    + rewrite decide_False; [done|].
      intros Hle. apply not_true_iff_false in Hyellow. apply Hyellow.
      apply Qle_bool_iff, Qle_ratio; [done | lia].
Qed.

Lemma getColor_overall_sample : getColor (Some sampleEntry) "overall" = am5_color 0xffff00.
Proof.
  apply (getColor_overall sampleEntry "overall"); [done | done | done | reflexivity | done].
Defined.

(** ** Colours as text *)

Lemma ToInt32_small (n : Z) : 0 ≤ n < 2 ^ 31 → ToInt32 (Some n) = n.
Proof.
  intros Hn. unfold ToInt32. rewrite Z.mod_small by lia.
  destruct (n <? 2 ^ 31) eqn:Hlt; [done|]. apply Z.ltb_ge in Hlt. lia.
Qed.

Lemma shiftLeft_small (x k : Z) :
  0 ≤ k → 0 ≤ x → x * 2 ^ k < 2 ^ 31 → shiftLeft (Some x) k = x * 2 ^ k.
Proof.
  intros Hk Hx Hlt. unfold shiftLeft.
  assert (0 < 2 ^ k) as Hpow by (apply Z.pow_pos_nonneg; lia).
  assert (x < 2 ^ 31) by nia.
  rewrite (ToInt32_small x) by lia.
  rewrite Z.shiftl_mul_pow2 by done. apply ToInt32_small. nia.
Qed.

Lemma hexDigits_step (fuel : nat) (m d : Z) (acc : string) :
  0 ≤ d < 16 → 0 < m →
  hexDigits (Datatypes.S fuel) (16 * m + d) acc
  = hexDigits fuel m (String (hexDigit d) acc).
Proof.
  intros Hd Hm. simpl.
  replace ((16 * m + d) mod 16) with d by (rewrite Z.add_comm, Z.mul_comm, Z_mod_plus_full, Z.mod_small; lia).
  replace ((16 * m + d) / 16) with m by (rewrite Z.add_comm, Z.mul_comm, Z_div_plus_full, Z.div_small; lia).
  destruct (m =? 0) eqn:Hz; [apply Z.eqb_eq in Hz; lia | done].
Qed.

Lemma hexDigits_last (fuel : nat) (d : Z) (acc : string) :
  0 ≤ d < 16 →
  hexDigits (Datatypes.S fuel) d acc = String (hexDigit d) acc.
Proof.
  intros Hd. simpl. rewrite Z.mod_small, Z.div_small by lia. done.
Qed.

Lemma packRgb_channels (r g b : Z) :
  isChannel r → isChannel g → isChannel b →
  packRgb (Some r) (Some g) (Some b) = Some (16777216 + r * 65536 + g * 256 + b).
Proof.
  unfold isChannel. intros Hr Hg Hb. unfold packRgb. simpl fmap.
  rewrite (shiftLeft_small 1 24), (shiftLeft_small r 16), (shiftLeft_small g 8) by lia.
  f_equal.
Qed.

(** The packed number reads [1rrggbb] in base 16. *)
Lemma toString16_packed (r g b : Z) :
  isChannel r → isChannel g → isChannel b →
  Number_toString16 (packRgb (Some r) (Some g) (Some b))
  = String "1"%char (hex2 r +:+ hex2 g +:+ hex2 b).
Proof.
  intros Hr Hg Hb. rewrite packRgb_channels by done.
  unfold isChannel in *. unfold Number_toString16.
  set (n := 16777216 + r * 65536 + g * 256 + b).
  assert (2 ^ 24 ≤ n < 2 ^ 25) as Hn by (subst n; lia).
  destruct (n <? 0) eqn:Hneg; [apply Z.ltb_lt in Hneg; lia|].
  unfold hexOfNat. rewrite (Z.log2_unique n 24) by lia.
  change (Datatypes.S (Z.to_nat 24)) with 25%nat.
  pose proof (Z.div_mod r 16 ltac:(lia)) as Hr'.
  pose proof (Z.div_mod g 16 ltac:(lia)) as Hg'.
  pose proof (Z.div_mod b 16 ltac:(lia)) as Hb'.
  pose proof (Z.mod_pos_bound r 16 ltac:(lia)) as Hr0.
  pose proof (Z.mod_pos_bound g 16 ltac:(lia)) as Hg0.
  pose proof (Z.mod_pos_bound b 16 ltac:(lia)) as Hb0.
  assert (0 ≤ r / 16 < 16) as Hr1 by (split; [apply Z.div_pos; lia | apply Z.div_lt_upper_bound; lia]).
  assert (0 ≤ g / 16 < 16) as Hg1 by (split; [apply Z.div_pos; lia | apply Z.div_lt_upper_bound; lia]).
  assert (0 ≤ b / 16 < 16) as Hb1 by (split; [apply Z.div_pos; lia | apply Z.div_lt_upper_bound; lia]).
  replace n with
    (16 * (16 * (16 * (16 * (16 * (16 * 1 + r / 16) + r mod 16) + g / 16) + g mod 16)
           + b / 16) + b mod 16) by (subst n; lia).
  rewrite !hexDigits_step by lia.
  by rewrite hexDigits_last by lia.
Qed.

(** Splits a hexadecimal digit into its sixteen values. *)
Ltac each_digit d :=
  let Hd := fresh "Hd" in
  assert (d = 0 ∨ d = 1 ∨ d = 2 ∨ d = 3 ∨ d = 4 ∨ d = 5 ∨ d = 6 ∨ d = 7 ∨
          d = 8 ∨ d = 9 ∨ d = 10 ∨ d = 11 ∨ d = 12 ∨ d = 13 ∨ d = 14 ∨ d = 15)
    as Hd by lia;
  repeat (destruct Hd as [Hd|Hd]; [subst d|]); [..|subst d].

Lemma parseInt16_digits (d1 d0 : Z) :
  0 ≤ d1 < 16 → 0 ≤ d0 < 16 →
  parseInt16 (String (hexDigit d1) (String (hexDigit d0) "")) = Some (16 * d1 + d0).
Proof.
  intros H1 H0. each_digit d1; each_digit d0; reflexivity.
Qed.

Lemma parseInt16_hex2 (x : Z) : isChannel x → parseInt16 (hex2 x) = Some x.
Proof.
  unfold isChannel. intros Hx. unfold hex2.
  rewrite parseInt16_digits.
  - f_equal. pose proof (Z.div_mod x 16 ltac:(lia)). lia.
  - split; [apply Z.div_pos; lia | apply Z.div_lt_upper_bound; lia].
  - apply Z.mod_pos_bound. lia.
Qed.

Lemma channels_colorText (r g b : Z) :
  isChannel r → isChannel g → isChannel b →
  channels (colorText r g b) = (Some r, Some g, Some b).
Proof.
  intros Hr Hg Hb. unfold channels.
  change (substring (colorText r g b) 1 3) with (hex2 r).
  change (substring (colorText r g b) 3 5) with (hex2 g).
  change (substring (colorText r g b) 5 7) with (hex2 b).
  by rewrite !parseInt16_hex2.
Qed.

Lemma color_text_packed (r g b : Z) :
  isChannel r → isChannel g → isChannel b →
  "#" +:+ slice1 (Number_toString16 (packRgb (Some r) (Some g) (Some b)))
  = colorText r g b.
Proof. intros Hr Hg Hb. by rewrite toString16_packed. Qed.

(** X11. Writing three channels as a colour text and reading the text back
    gives the channels again: the packing [(1 << 24) + (r << 16) + (g << 8) + b],
    its hexadecimal text without the leading 1, and the three
    [parseInt(_, 16)] of its two-character pieces are inverse to each other
    on channels from 0 to 255. *)
Theorem color_text_round_trip (r g b : Z) :
  isChannel r → isChannel g → isChannel b →
  "#" +:+ slice1 (Number_toString16 (packRgb (Some r) (Some g) (Some b)))
    = colorText r g b ∧
  channels ("#" +:+ slice1 (Number_toString16 (packRgb (Some r) (Some g) (Some b))))
    = (Some r, Some g, Some b).
Proof.
  intros Hr Hg Hb. rewrite toString16_packed by done.
  split; [done|]. by apply channels_colorText.
Qed.

Lemma color_text_round_trip_sample :
  channels ("#" +:+ slice1 (Number_toString16 (packRgb (Some 204) (Some 229) (Some 0))))
  = (Some 204, Some 229, Some 0).
Proof.
  apply (color_text_round_trip 204 229 0); unfold isChannel; lia.
Defined.

Lemma Qfloor_half (m : Z) : Qfloor (inject_Z m + (1 # 2)) = m.
Proof.
  unfold Qfloor, Qplus, inject_Z. simpl.
  symmetry. apply (Z.div_unique _ _ _ 1); lia.
Qed.

Lemma Math_round_bounds (lo hi : Z) (x : Q) :
  (inject_Z lo <= x)%Q → (x <= inject_Z hi)%Q → lo ≤ Math_round x ≤ hi.
Proof.
  intros Hlo Hhi. unfold Math_round. split.
  - rewrite <- (Qfloor_Z lo). apply Qfloor_resp_le. lra.
  - rewrite <- (Qfloor_half hi). apply Qfloor_resp_le. lra.
Qed.

Lemma Math_round_mono (x y : Q) : (x <= y)%Q → Math_round x ≤ Math_round y.
Proof. intros Hxy. unfold Math_round. apply Qfloor_resp_le. lra. Qed.

Lemma Math_round_between (a b : Z) (factor : Q) :
  (0 <= factor)%Q → (factor <= 1)%Q →
  between a (Math_round (inject_Z a + inject_Z (b - a) * factor)) b.
Proof.
  intros H0 H1. unfold between.
  unfold Z.sub. rewrite inject_Z_plus, inject_Z_opp.
  destruct (Z.le_ge_cases a b) as [Hab|Hab].
  - rewrite Z.min_l, Z.max_r by done. rewrite Zle_Qle in Hab.
    apply Math_round_bounds; nra.
  - rewrite Z.min_r, Z.max_l by done. rewrite Zle_Qle in Hab.
    apply Math_round_bounds; nra.
Qed.

Lemma between_channel (a x b : Z) : isChannel a → isChannel b → between a x b → isChannel x.
Proof. unfold isChannel, between. lia. Qed.

Lemma between_left (a b : Z) : between a a b.
Proof. unfold between. lia. Qed.

Lemma between_right (a b : Z) : between a b b.
Proof. unfold between. lia. Qed.

(** Strictly inside the interval the result is the text of the rounded
    mixtures. *)
Lemma interpolateColor_inside (c1 c2 : string) (factor : Q) (r1 g1 b1 r2 g2 b2 : Z) :
  channels c1 = (Some r1, Some g1, Some b1) →
  channels c2 = (Some r2, Some g2, Some b2) →
  isChannel r1 → isChannel g1 → isChannel b1 →
  isChannel r2 → isChannel g2 → isChannel b2 →
  Qle_bool factor 0 = false → Qle_bool 1 factor = false →
  interpolateColor c1 c2 factor =
    colorText (Math_round (inject_Z r1 + inject_Z (r2 - r1) * factor))
              (Math_round (inject_Z g1 + inject_Z (g2 - g1) * factor))
              (Math_round (inject_Z b1 + inject_Z (b2 - b1) * factor)).
Proof.
  intros Hc1 Hc2 Hr1 Hg1 Hb1 Hr2 Hg2 Hb2 Hlo Hhi.
  unfold interpolateColor. rewrite Hlo, Hhi, Hc1, Hc2. simpl mixChannel.
  assert (0 <= factor)%Q as H0.
  { apply Qnot_lt_le. intros Hlt. apply Qlt_le_weak, Qle_bool_iff in Hlt. congruence. }
  assert (factor <= 1)%Q as H1.
  { apply Qnot_lt_le. intros Hlt. apply Qlt_le_weak, Qle_bool_iff in Hlt. congruence. }
  pose proof (Math_round_between r1 r2 factor H0 H1) as Hr.
  pose proof (Math_round_between g1 g2 factor H0 H1) as Hg.
  pose proof (Math_round_between b1 b2 factor H0 H1) as Hb.
  apply color_text_packed;
    [by apply (between_channel r1 _ r2) | by apply (between_channel g1 _ g2)
    | by apply (between_channel b1 _ b2)].
Qed.

(** X12. Between two colour texts with channels from 0 to 255, and for any
    factor, [interpolateColor] gives a colour text that reads back as three
    channels, each between the channels of the two colours (so again from 0
    to 255). *)
Theorem interpolateColor_channels (c1 c2 : string) (factor : Q) (r1 g1 b1 r2 g2 b2 : Z) :
  channels c1 = (Some r1, Some g1, Some b1) →
  channels c2 = (Some r2, Some g2, Some b2) →
  isChannel r1 → isChannel g1 → isChannel b1 →
  isChannel r2 → isChannel g2 → isChannel b2 →
  ∃ r g b,
    channels (interpolateColor c1 c2 factor) = (Some r, Some g, Some b) ∧
    between r1 r r2 ∧ between g1 g g2 ∧ between b1 b b2.
Proof.
  intros Hc1 Hc2 Hr1 Hg1 Hb1 Hr2 Hg2 Hb2.
  destruct (Qle_bool factor 0) eqn:Hlo.
  { exists r1, g1, b1. unfold interpolateColor. rewrite Hlo.
    split_and!; [done | apply between_left..]. }
  destruct (Qle_bool 1 factor) eqn:Hhi.
  { exists r2, g2, b2. unfold interpolateColor. rewrite Hlo, Hhi.
    split_and!; [done | apply between_right..]. }
  assert (0 <= factor)%Q as H0.
  { apply Qnot_lt_le. intros Hlt. apply Qlt_le_weak, Qle_bool_iff in Hlt. congruence. }
  assert (factor <= 1)%Q as H1.
  { apply Qnot_lt_le. intros Hlt. apply Qlt_le_weak, Qle_bool_iff in Hlt. congruence. }
  pose proof (Math_round_between r1 r2 factor H0 H1) as Hr.
  pose proof (Math_round_between g1 g2 factor H0 H1) as Hg.
  pose proof (Math_round_between b1 b2 factor H0 H1) as Hb.
  eexists _, _, _. rewrite (interpolateColor_inside c1 c2 factor r1 g1 b1 r2 g2 b2) by done.
  split_and!; [|exact Hr | exact Hg | exact Hb].
  apply channels_colorText;
    [by apply (between_channel r1 _ r2) | by apply (between_channel g1 _ g2)
    | by apply (between_channel b1 _ b2)].
Qed.

Lemma interpolateColor_channels_sample :
  ∃ r g b,
    channels (interpolateColor "#cce5cc" "#006400" (1 # 3)) = (Some r, Some g, Some b) ∧
    between 204 r 0 ∧ between 229 g 100 ∧ between 204 b 0.
Proof.
  apply (interpolateColor_channels "#cce5cc" "#006400" (1 # 3) 204 229 204 0 100 0);
    first [reflexivity | unfold isChannel; lia].
Defined.

Lemma channelAt_between (a b : Z) (factor : Q) : between a (channelAt a b factor) b.
Proof.
  unfold channelAt.
  destruct (Qle_bool factor 0) eqn:Hlo; [apply between_left|].
  destruct (Qle_bool 1 factor) eqn:Hhi; [apply between_right|].
  apply Math_round_between.
  - apply Qnot_lt_le. intros Hlt. apply Qlt_le_weak, Qle_bool_iff in Hlt. congruence.
  - apply Qnot_lt_le. intros Hlt. apply Qlt_le_weak, Qle_bool_iff in Hlt. congruence.
Qed.

Lemma interpolateColor_channelAt (c1 c2 : string) (factor : Q) (r1 g1 b1 r2 g2 b2 : Z) :
  channels c1 = (Some r1, Some g1, Some b1) →
  channels c2 = (Some r2, Some g2, Some b2) →
  isChannel r1 → isChannel g1 → isChannel b1 →
  isChannel r2 → isChannel g2 → isChannel b2 →
  channels (interpolateColor c1 c2 factor)
  = (Some (channelAt r1 r2 factor), Some (channelAt g1 g2 factor),
     Some (channelAt b1 b2 factor)).
Proof.
  intros Hc1 Hc2 Hr1 Hg1 Hb1 Hr2 Hg2 Hb2.
  pose proof (channelAt_between r1 r2 factor) as Hr.
  pose proof (channelAt_between g1 g2 factor) as Hg.
  pose proof (channelAt_between b1 b2 factor) as Hb.
  unfold channelAt in *.
  destruct (Qle_bool factor 0) eqn:Hlo.
  { unfold interpolateColor. by rewrite Hlo. }
  destruct (Qle_bool 1 factor) eqn:Hhi.
  { unfold interpolateColor. by rewrite Hlo, Hhi. }
  rewrite (interpolateColor_inside c1 c2 factor r1 g1 b1 r2 g2 b2) by done.
  apply channels_colorText;
    [by apply (between_channel r1 _ r2) | by apply (between_channel g1 _ g2)
    | by apply (between_channel b1 _ b2)].
Qed.

(** Towards a darker end a channel never rises with the factor. *)
Lemma channelAt_antitone (a b : Z) (f f' : Q) :
  b ≤ a → (f <= f')%Q → channelAt a b f' ≤ channelAt a b f.
Proof.
  intros Hba Hff.
  pose proof (channelAt_between a b f) as Hf.
  pose proof (channelAt_between a b f') as Hf'.
  unfold between in *. rewrite Z.min_r, Z.max_l in Hf, Hf' by done.
  unfold channelAt in *.
  destruct (Qle_bool f' 0) eqn:Hlo'.
  { apply Qle_bool_iff in Hlo'.
    assert (Qle_bool f 0 = true) as -> by (apply Qle_bool_iff; lra). done. }
  destruct (Qle_bool 1 f') eqn:Hhi'; [lia|].
  destruct (Qle_bool f 0) eqn:Hlo; [lia|].
  destruct (Qle_bool 1 f) eqn:Hhi.
  { apply Qle_bool_iff in Hhi.
    assert (Qle_bool 1 f' = true) by (apply Qle_bool_iff; lra). congruence. }
  apply Math_round_mono.
  assert (inject_Z (b - a) <= 0)%Q as Hneg.
  { change 0%Q with (inject_Z 0). rewrite <- Zle_Qle. lia. }
  nra.
Qed.

(** The two colours of each view, read as channels. *)
Ltac gradient_ends :=
  first [reflexivity | unfold isChannel; lia].

Lemma getGradientColor_channels (value : Q) (view : string) :
  ∃ r g b,
    channels (getGradientColor value view) = (Some r, Some g, Some b) ∧
    isChannel r ∧ isChannel g ∧ isChannel b.
Proof.
  unfold getGradientColor.
  assert (∀ c1 c2 f r1 g1 b1 r2 g2 b2,
    channels c1 = (Some r1, Some g1, Some b1) →
    channels c2 = (Some r2, Some g2, Some b2) →
    isChannel r1 → isChannel g1 → isChannel b1 →
    isChannel r2 → isChannel g2 → isChannel b2 →
    ∃ r g b, channels (interpolateColor c1 c2 f) = (Some r, Some g, Some b) ∧
             isChannel r ∧ isChannel g ∧ isChannel b) as Hproper.
  { intros c1 c2 f r1 g1 b1 r2 g2 b2 Hc1 Hc2 Hr1 Hg1 Hb1 Hr2 Hg2 Hb2.
    eexists _, _, _. split; [by apply interpolateColor_channelAt|].
    split_and!; eapply between_channel; try apply channelAt_between; done. }
  repeat case_decide.
  - apply (Hproper _ _ _ 204 229 204 0 100 0); gradient_ends.
  - apply (Hproper _ _ _ 255 255 204 204 204 0); gradient_ends.
  - apply (Hproper _ _ _ 245 204 204 139 0 0); gradient_ends.
  - destruct (Qle_bool lit_0_66 value).
    + apply (Hproper _ _ _ 204 204 0 0 100 0); gradient_ends.
    + destruct (Qle_bool lit_0_33 value).
      * exists 204, 204, 0. split; [reflexivity|]. unfold isChannel. lia.
      * apply (Hproper _ _ _ 139 0 0 204 204 0); gradient_ends.
Qed.

(** X13. Whatever the value and the view, [getGradientColor] gives a colour
    text that reads back as three channels from 0 to 255; and in the
    positive, the neutral and the negative view a value outside the interval
    from 0 to 1 gives the colour of the nearer end. *)
Theorem getGradientColor_proper (value : Q) (view : string) :
  (∃ r g b,
     channels (getGradientColor value view) = (Some r, Some g, Some b) ∧
     isChannel r ∧ isChannel g ∧ isChannel b) ∧
  ((value <= 0)%Q →
   getGradientColor value "positive" = "#cce5cc" ∧
   getGradientColor value "neutral" = "#ffffcc" ∧
   getGradientColor value "negative" = "#f5cccc") ∧
  ((1 <= value)%Q →
   getGradientColor value "positive" = "#006400" ∧
   getGradientColor value "neutral" = "#cccc00" ∧
   getGradientColor value "negative" = "#8b0000").
Proof.
  split; [apply getGradientColor_channels|].
  assert (∀ c1 c2, (value <= 0)%Q → interpolateColor c1 c2 value = c1) as Hlow.
  { intros c1 c2 Hle. unfold interpolateColor.
    apply Qle_bool_iff in Hle. by rewrite Hle. }
  assert (∀ c1 c2, (1 <= value)%Q → interpolateColor c1 c2 value = c2) as Hhigh.
  { intros c1 c2 Hle. unfold interpolateColor.
    destruct (Qle_bool value 0) eqn:Hlo.
    - apply Qle_bool_iff in Hlo. lra.
    - apply Qle_bool_iff in Hle. by rewrite Hle. }
  split; intros Hle.
  - split_and!; apply (Hlow _ _ Hle).
  - split_and!; apply (Hhigh _ _ Hle).
Qed.

(** X14. In the positive, the neutral and the negative view a larger value
    never gives a lighter colour: no channel of the colour rises when the
    value does. *)
Theorem getGradientColor_darkens (view : string) (value value' : Q) :
  view = "positive" ∨ view = "neutral" ∨ view = "negative" →
  (value <= value')%Q →
  ∃ r g b r' g' b',
    channels (getGradientColor value view) = (Some r, Some g, Some b) ∧
    channels (getGradientColor value' view) = (Some r', Some g', Some b') ∧
    r' ≤ r ∧ g' ≤ g ∧ b' ≤ b.
Proof.
  intros Hview Hle.
  assert (∀ v, getGradientColor v "positive" = interpolateColor "#cce5cc" "#006400" v)
    as Hpositive by reflexivity.
  assert (∀ v, getGradientColor v "neutral" = interpolateColor "#ffffcc" "#cccc00" v)
    as Hneutral by reflexivity.
  assert (∀ v, getGradientColor v "negative" = interpolateColor "#f5cccc" "#8b0000" v)
    as Hnegative by reflexivity.
  destruct Hview as [-> | [-> | ->]]; eexists _, _, _, _, _, _.
  - rewrite !Hpositive.
    rewrite !(interpolateColor_channelAt _ _ _ 204 229 204 0 100 0) by gradient_ends.
    split_and!; [done | done | apply channelAt_antitone; [lia | done]..].
  - rewrite !Hneutral.
    rewrite !(interpolateColor_channelAt _ _ _ 255 255 204 204 204 0) by gradient_ends.
    split_and!; [done | done | apply channelAt_antitone; [lia | done]..].
  - rewrite !Hnegative.
    rewrite !(interpolateColor_channelAt _ _ _ 245 204 204 139 0 0) by gradient_ends.
    split_and!; [done | done | apply channelAt_antitone; [lia | done]..].
Qed.

Lemma getGradientColor_darkens_sample :
  ∃ r g b r' g' b',
    channels (getGradientColor (1 # 4) "negative") = (Some r, Some g, Some b) ∧
    channels (getGradientColor (3 # 4) "negative") = (Some r', Some g', Some b') ∧
    r' ≤ r ∧ g' ≤ g ∧ b' ≤ b.
Proof.
  apply (getGradientColor_darkens "negative" (1 # 4) (3 # 4)); [by right; right | done].
Defined.

Example getGradientColor_samples :
  getGradientColor (1 # 4) "negative" = "#db9999" ∧
  getGradientColor (3 # 4) "negative" = "#a63333" ∧
  getGradientColor (7 # 16) "overall" = "#cccc00" ∧
  getGradientColor (3 # 4) "overall" = "#96b000".
Proof. repeat split; vm_compute; reflexivity. Qed.

(** ** The data of the map series *)

Lemma colorValue_unit (cd : Entry.t) (view : string) :
  0 ≤ Entry.positive cd → 0 ≤ Entry.neutral cd → 0 ≤ Entry.negative cd →
  Entry.total cd = Entry.positive cd + Entry.neutral cd + Entry.negative cd →
  0 < Entry.total cd →
  (0 <= getColorValue (Some cd) view <= 1)%Q.
Proof.
  intros Hp Hn Hg Ht Hpos. unfold getColorValue.
  rewrite noData_false by lia. repeat case_decide.
  - apply (ratio_range _ _ 0 1); lia.
  - apply (ratio_range _ _ 0 1); lia.
  - apply (ratio_range _ _ 0 1); lia.
  - cbv zeta.
    assert (-1 <= overallScore cd <= 1)%Q as [? ?]
      by (unfold overallScore; apply (ratio_range _ _ (-1) 1); lia).
    split; [apply Qle_shift_div_l | apply Qle_shift_div_r]; lra.
Qed.

Section SeriesFacts.
Context `{Host}.
Implicit Types (data : list Row) (names : list (string * string)) (view id : string).

Lemma seriesItem_aggregateData data names view id :
  seriesItem (aggregateData data).1 names view id =
  match entryOf id data with
  | Some e =>
      {| Item.id := id; Item.displayName := Entry.displayName e;
         Item.positive := Entry.positive e; Item.neutral := Entry.neutral e;
         Item.negative := Entry.negative e; Item.total := Entry.total e;
         Item.value := getColorValue (Some e) view;
         Item.fill := FillText (getGradientColor (getColorValue (Some e) view) view);
         Item.interactive := true |}
  | None =>
      {| Item.id := id; Item.displayName := orElse (getProp names id) id;
         Item.positive := 0; Item.neutral := 0; Item.negative := 0; Item.total := 0;
         Item.value := 0%Q; Item.fill := FillColor (am5_color 0xd3d3d3);
         Item.interactive := false |}
  end.
Proof. unfold seriesItem. by rewrite findById_aggregateData. Qed.

Lemma entryOf_None_counts id data s : entryOf id data = None → countOf s id data = 0.
Proof.
  unfold entryOf. intros He. apply countOf_no_rows.
  destruct (rowsOf id data); [done | discriminate].
Qed.

(** X15. The series has one item for each country of the map, in the order
    of the map, and each item shows the tally of the rows that map to its
    identifier: its three counts are the numbers of those rows per sentiment,
    its total is their sum, and it is interactive exactly when there is such
    a row. *)
Theorem seriesData_tally data names view (geoCountries : list string) :
  Item.id <$> seriesData (aggregateData data).1 names view geoCountries = geoCountries ∧
  Forall (λ item,
    Item.positive item = countOf 2 (Item.id item) data ∧
    Item.neutral item = countOf 1 (Item.id item) data ∧
    Item.negative item = countOf 0 (Item.id item) data ∧
    Item.total item = Item.positive item + Item.neutral item + Item.negative item ∧
    (Item.interactive item ↔ Item.id item ∈ countryIdOf <$> data))
    (seriesData (aggregateData data).1 names view geoCountries).
Proof.
  unfold seriesData. split.
  - rewrite <- list_fmap_compose. rewrite <- (list_fmap_id geoCountries) at 2.
    apply list_fmap_ext. intros _ id _. simpl. unfold seriesItem.
    by destruct (findById _ id).
  - apply Forall_fmap, Forall_forall. intros id _. unfold compose.
    rewrite seriesItem_aggregateData, <- head_rowsOf_Some.
    destruct (entryOf id data) as [e|] eqn:He; simpl.
    + unfold entryOf in He. destruct (head (rowsOf id data)) as [first|]; [|done].
      simpl in He. injection He as <-. simpl.
      do 4 (split; [done|]). split; [by eexists | done].
    + rewrite !entryOf_None_counts by done.
      do 4 (split; [done|]).
      unfold entryOf in He. destruct (head (rowsOf id data)); [done|].
      split; [done | by intros [? ?]].
Qed.

(** X16. For kept rows every item of the series is consistent: it is
    interactive exactly when its total is positive, its value lies between 0
    and 1, and its fill is a colour text that reads back as three channels
    from 0 to 255 when it is interactive and the grey colour object when it is
    not. *)
Theorem seriesData_consistent data names view (geoCountries : list string) :
  Forall (λ row, isValid row) data →
  Forall (λ item,
    (Item.interactive item ↔ 0 < Item.total item) ∧
    (0 <= Item.value item <= 1)%Q ∧
    match Item.fill item with
    | FillText color =>
        Item.interactive item ∧
        ∃ r g b, channels color = (Some r, Some g, Some b) ∧
                 isChannel r ∧ isChannel g ∧ isChannel b
    | FillColor color => ¬ Item.interactive item ∧ color = am5_color 0xd3d3d3
    end)
    (seriesData (aggregateData data).1 names view geoCountries).
Proof.
  intros Hv. unfold seriesData. apply Forall_fmap, Forall_forall. intros id _.
  unfold compose. rewrite seriesItem_aggregateData.
  destruct (entryOf id data) as [e|] eqn:He; simpl.
  - pose proof (entryOf_total id data e Hv He) as [_ Hpos].
    assert (0 ≤ Entry.positive e ∧ 0 ≤ Entry.neutral e ∧ 0 ≤ Entry.negative e ∧
            Entry.total e = Entry.positive e + Entry.neutral e + Entry.negative e)
      as (Hp & Hn & Hg & Ht).
    { unfold entryOf in He. destruct (head (rowsOf id data)); [|done].
      simpl in He. injection He as <-. simpl.
      split_and!; [apply countOf_nonneg.. | done]. }
    split; [split; [intros _; lia | done]|].
    split; [apply colorValue_unit; lia|].
    split; [done | apply getGradientColor_channels].
  - split; [split; [done | lia]|].
    split; [lra|]. split; [tauto | done].
Qed.

End SeriesFacts.

Lemma seriesData_consistent_sample :
  Forall (λ item, Item.interactive item ↔ 0 < Item.total item)
    (seriesData (@aggregateData sampleHost sampleRows).1 (idToCountryName sampleTable)
       "overall" ["IN"; "US"; "FR"]).
Proof.
  eapply Forall_impl.
  - apply (@seriesData_consistent sampleHost sampleRows (idToCountryName sampleTable)
             "overall" ["IN"; "US"; "FR"]).
    repeat constructor.
  - intros item (Hi & _). exact Hi.
Defined.

Example seriesData_sample :
  (λ item, (Item.id item, Item.displayName item, Item.total item, Item.fill item))
  <$> seriesData (@aggregateData sampleHost sampleRows).1 (idToCountryName sampleTable)
        "positive" ["IN"; "US"; "FR"]
  = [ ("IN", "India", 2, FillText "#66a566");
      ("US", "United States of America", 0, FillColor (am5_color 0xd3d3d3));
      ("FR", "France", 1, FillText "#cce5cc") ].
Proof. vm_compute. reflexivity. Qed.

(** ** The country list *)

Lemma elem_distinctFrom (seen l : list string) (x : string) :
  x ∈ distinctFrom seen l ↔ x ∈ l ∧ x ∉ seen.
Proof.
  revert seen. induction l as [|y l IH]; intros seen; simpl.
  - rewrite elem_of_nil. tauto.
  - destruct (decide (y ∈ seen)) as [Hy|Hy].
    + rewrite IH, elem_of_cons. split; [tauto|].
      intros [[->|Hx] Hseen]; [done | tauto].
    + rewrite !elem_of_cons, IH, not_elem_of_cons.
      split.
      * intros [->|(Hx & Hne & Hseen)]; tauto.
      * intros [[->|Hx] Hseen]; [tauto|].
        destruct (decide (x = y)) as [->|Hne]; tauto.
Qed.

Lemma NoDup_distinctFrom (seen l : list string) : NoDup (distinctFrom seen l).
Proof.
  revert seen. induction l as [|y l IH]; intros seen; simpl; [apply NoDup_nil_2|].
  destruct (decide (y ∈ seen)); [apply IH|].
  apply NoDup_cons. split; [|apply IH].
  rewrite elem_distinctFrom, not_elem_of_cons. tauto.
Qed.

Lemma insertSorted_perm (x : string) (l : list string) : insertSorted x l ≡ₚ x :: l.
Proof.
  induction l as [|y l IH]; simpl; [done|].
  destruct (String.leb x y); [done|]. rewrite IH. apply Permutation_swap.
Qed.

Lemma Array_sort_perm (l : list string) : Array_sort l ≡ₚ l.
Proof.
  unfold Array_sort. induction l as [|x l IH]; simpl; [done|].
  by rewrite insertSorted_perm, IH.
Qed.

Lemma leb_flip (a b : string) : String.leb a b = false → String.leb b a = true.
Proof. intros Hab. destruct (String.leb_total a b) as [?|?]; congruence. Qed.

Lemma insertSorted_ascending (x : string) (l : list string) :
  ascending l → ascending (insertSorted x l).
Proof.
  unfold ascending. induction l as [|y l IH]; simpl; intros Hl.
  - by repeat constructor.
  - destruct (String.leb x y) eqn:Hxy.
    + constructor; [done | by constructor].
    + apply Sorted_inv in Hl as [Hl Hhd]. constructor; [by apply IH|].
      destruct l as [|z l]; simpl.
      * constructor. by apply leb_flip.
      * destruct (String.leb x z); constructor; [by apply leb_flip|].
        by apply HdRel_inv in Hhd.
Qed.

Lemma Array_sort_ascending (l : list string) : ascending (Array_sort l).
Proof.
  unfold Array_sort. induction l as [|x l IH]; simpl; [constructor|].
  by apply insertSorted_ascending.
Qed.

Section SelectFacts.
Context `{Host}.
Implicit Types (data : list Row) (id : string).

Lemma labels_countryOptions data :
  (countryOptions data).*1 = Array_sort (Set_spread (country <$> data)).
Proof.
  unfold countryOptions. rewrite <- list_fmap_compose.
  rewrite <- (list_fmap_id (Array_sort _)) at 2. by apply list_fmap_ext.
Qed.

Lemma option_found data (name : string) :
  Forall (λ row, isValid row) data → name ∈ country <$> data →
  ∃ e, findById (aggregateData data).1 (optionValue name) = Some e ∧ 1 ≤ Entry.total e.
Proof.
  intros Hv Hin. apply list_elem_of_fmap in Hin as (row & -> & Hrow).
  change (optionValue (country row)) with (countryIdOf row).
  rewrite findById_aggregateData.
  destruct (entryOf (countryIdOf row) data) as [e|] eqn:He.
  - exists e. split; [done|]. by apply entryOf_total in He as [_ ?].
  - exfalso. unfold entryOf in He.
    assert (is_Some (head (rowsOf (countryIdOf row) data))) as [first Hfirst].
    { apply head_rowsOf_Some. by apply list_elem_of_fmap_2. }
    by rewrite Hfirst in He.
Qed.

(** X17. The country list offers each distinct country of the rows once, in
    ascending order, and for kept rows every option it offers finds an entry
    of the tally with at least one row: choosing an option always gives
    details to show. *)
Theorem countryOptions_found data :
  Forall (λ row, isValid row) data →
  (countryOptions data).*1 ≡ₚ remove_dups (country <$> data) ∧
  ascending (countryOptions data).*1 ∧
  Forall (λ option,
    ∃ e, Selection.selectedDetails (onCountryChange data option.2) = Some (OfList e) ∧
         1 ≤ Entry.total e)
    (countryOptions data).
Proof.
  intros Hv. split_and!.
  - rewrite labels_countryOptions, Array_sort_perm.
    apply NoDup_Permutation; [apply NoDup_distinctFrom | apply NoDup_remove_dups |].
    intros x. unfold Set_spread. rewrite elem_distinctFrom, elem_of_remove_dups.
    split; [tauto|]. intros Hx. split; [done | apply not_elem_of_nil].
  - rewrite labels_countryOptions. apply Array_sort_ascending.
  - unfold countryOptions. apply Forall_fmap, Forall_forall. intros name Hname.
    unfold compose, onCountryChange. cbn [snd Selection.selectedDetails].
    rewrite Array_sort_perm in Hname. unfold Set_spread in Hname.
    apply elem_distinctFrom in Hname as [Hname _].
    destruct (option_found data name Hv Hname) as (e & He & Ht).
    exists e. by rewrite He.
Qed.

End SelectFacts.

Lemma countryOptions_found_sample :
  Forall (λ row, isValid row) sampleRows ∧
  ascending (@countryOptions sampleHost sampleRows).*1.
Proof.
  split.
  - repeat constructor.
  - apply (@countryOptions_found sampleHost sampleRows). repeat constructor.
Defined.

Example countryOptions_sample :
  @countryOptions sampleHost sampleRows
  = [("France", "FR"); ("INDIA", "INDIA"); ("India", "IN"); ("india", "INDIA")].
Proof. vm_compute. reflexivity. Qed.

(** ** The selection *)

Section SelectionFacts.
Context `{Host}.
Implicit Types (data : list Row) (sel : Selection.t).

Lemma seriesItem_interactive (aggregated : list Entry.t) names view id :
  Item.interactive (seriesItem aggregated names view id) →
  Item.id (seriesItem aggregated names view id) = id ∧
  ∃ e, findById aggregated id = Some e ∧
       detailsCounts (OfMap (seriesItem aggregated names view id)) =
         (Entry.positive e, Entry.neutral e, Entry.negative e, Entry.total e).
Proof.
  unfold seriesItem. destruct (findById aggregated id) as [e|]; simpl; [|done].
  intros _. split; [done|]. by exists e.
Qed.

Lemma act_agrees data sel (a : Action) :
  allowed data a → selectionAgrees data sel → selectionAgrees data (act data sel a).
Proof.
  intros Ha Hsel. destruct a as [[item|]|value|]; [| done | | done].
  - unfold act, onClick. destruct (Item.interactive item) eqn:Hi; [|done].
    destruct Ha as (names & view & geo & Hitem).
    unfold seriesData in Hitem. apply list_elem_of_fmap in Hitem as (id & -> & _).
    rewrite <- Is_true_true in Hi.
    destruct (seriesItem_interactive _ names view id Hi) as (Hid & e & He & Hcounts).
    unfold selectionAgrees.
    cbn [Selection.selectedDetails Selection.selectedCountry detailsId].
    rewrite Hid. split; [done|]. by exists e.
  - unfold act, selectionAgrees, onCountryChange.
    cbn [Selection.selectedDetails Selection.selectedCountry].
    destruct (findById (aggregateData data).1 value) as [e|] eqn:He; [|done].
    apply findById_Some in He as Hid. destruct Hid as [_ Hid].
    cbn [fmap option_fmap option_map detailsId detailsCounts]. rewrite Hid.
    split; [done|]. by exists e.
Qed.

Lemma actions_agree data sel (actions : list Action) :
  Forall (allowed data) actions → selectionAgrees data sel →
  selectionAgrees data (foldl (act data) sel actions).
Proof.
  intros Hall. revert sel.
  induction Hall as [|a actions Ha _ IH]; intros sel Hsel; simpl; [done|].
  apply IH. by apply act_agrees.
Qed.

(** X18. Whatever the user does (clicks on the map, choices in the country
    list, closing the panel, in any order), the selection agrees with the
    tally: when details are shown, the country list shows their identifier
    and the details carry the counts the tally has for that identifier. *)
Theorem selection_agrees data (actions : list Action) :
  Forall (allowed data) actions →
  selectionAgrees data (foldl (act data) noSelection actions).
Proof.
  intros Hall. apply actions_agree; [done|].
  unfold selectionAgrees, noSelection. simpl. exact I.
Qed.

(** X20. For kept rows, and whatever the user does, a details panel that is
    shown carries non-negative counts for the three sentiments and a total
    that is their sum and at least one. *)
Theorem detailsPanel_counts data (names : list (string * string))
    (actions : list Action) :
  Forall (λ row, isValid row) data →
  Forall (allowed data) actions →
  match detailsPanel names (foldl (act data) noSelection actions) with
  | Some (heading, (p, n, g, t)) => 0 ≤ p ∧ 0 ≤ n ∧ 0 ≤ g ∧ t = p + n + g ∧ 1 ≤ t
  | None => True
  end.
Proof.
  intros Hv Hall.
  assert (selectionAgrees data (foldl (act data) noSelection actions)) as Hsel.
  { apply actions_agree; [done|]. unfold selectionAgrees, noSelection. simpl. exact I. }
  unfold detailsPanel, selectionAgrees in *.
  destruct (Selection.selectedDetails _) as [d|]; [|done].
  destruct Hsel as (_ & e & He & Hcounts). rewrite Hcounts.
  rewrite !orZero_id. rewrite findById_aggregateData in He.
  pose proof (entryOf_total _ _ _ Hv He) as [_ Hpos].
  unfold entryOf in He. destruct (head (rowsOf (detailsId d) data)); [|done].
  simpl in He. injection He as <-. simpl in *.
  split_and!; [apply countOf_nonneg.. | done | done].
Qed.

(** X21. A click on a country of the map to which no row maps changes
    nothing: the selection stays as it was. *)
Theorem click_without_data data (names : list (string * string)) (view id : string)
    sel :
  id ∉ countryIdOf <$> data →
  onClick (Some (seriesItem (aggregateData data).1 names view id)) sel = sel.
Proof.
  intros Hid. rewrite seriesItem_aggregateData.
  destruct (entryOf id data) as [e|] eqn:He; [|done].
  exfalso. apply Hid. apply head_rowsOf_Some.
  unfold entryOf in He. destruct (head (rowsOf id data)); [by eexists | done].
Qed.

End SelectionFacts.

Lemma selection_agrees_sample :
  @selectionAgrees sampleHost sampleRows
    (foldl (@act sampleHost sampleRows) noSelection
       [Choose "IN"; Click None; Close; Choose "INDIA"]).
Proof.
  apply (@selection_agrees sampleHost sampleRows).
  repeat constructor.
Defined.

Lemma detailsPanel_counts_sample :
  match detailsPanel (idToCountryName sampleTable)
          (foldl (@act sampleHost sampleRows) noSelection [Choose "FR"; Choose "IN"]) with
  | Some (heading, (p, n, g, t)) => 0 ≤ p ∧ 0 ≤ n ∧ 0 ≤ g ∧ t = p + n + g ∧ 1 ≤ t
  | None => True
  end.
Proof.
  apply (@detailsPanel_counts sampleHost sampleRows (idToCountryName sampleTable)
           [Choose "FR"; Choose "IN"]); repeat constructor.
Defined.

Lemma click_without_data_sample :
  onClick (Some (seriesItem (@aggregateData sampleHost sampleRows).1 [] "overall" "US"))
    noSelection = noSelection.
Proof.
  apply (@click_without_data sampleHost sampleRows [] "overall" "US" noSelection).
  intros Hin. vm_compute in Hin.
  repeat (apply elem_of_cons in Hin as [Hin|Hin]; [discriminate|]).
  by apply elem_of_nil in Hin.
Defined.

Example selection_sample :
  detailsPanel (idToCountryName sampleTable)
    (foldl (@act sampleHost sampleRows) noSelection [Choose "XX"; Choose "IN"])
  = Some ("India Overview", (1, 1, 0, 2)) ∧
  detailsPanel (idToCountryName sampleTable)
    (foldl (@act sampleHost sampleRows) noSelection [Choose "IN"; Choose "XX"])
  = None.
Proof. split; vm_compute; reflexivity. Qed.

(** ** Tooltips *)

Lemma append_assoc (s1 s2 s3 : string) : (s1 +:+ s2) +:+ s3 = s1 +:+ (s2 +:+ s3).
Proof.
  induction s1 as [|c s1 IH]; [done|].
  change (String c ((s1 +:+ s2) +:+ s3) = String c (s1 +:+ (s2 +:+ s3))).
  by rewrite IH.
Qed.

Section TooltipFacts.
Context `{Host}.

(** X19. For kept rows the two tooltips of a series item agree.  Without
    data (and with a non-empty identifier) the text the pointer handler sets is
    the text of the adapter, [No data for] and the name.  With data both end
    with the same three lines of counts. *)
Theorem tooltips_agree (data : list Row) (names : list (string * string))
    (view : string) (geoCountries : list string) (item : Item.t) :
  Forall (λ row, isValid row) data →
  item ∈ seriesData (aggregateData data).1 names view geoCountries →
  Item.id item ≠ "" →
  if Item.interactive item then
    ∃ heading heading',
      tooltipAdapter (Some item) =
        heading +:+ countsText (Item.positive item) (Item.neutral item) (Item.negative item) ∧
      onPointerOver names (Some item) =
        Some (heading' +:+
              countsText (Item.positive item) (Item.neutral item) (Item.negative item))
  else
    onPointerOver names (Some item) = Some (tooltipAdapter (Some item)) ∧
    ∃ name, tooltipAdapter (Some item) = "No data for " +:+ name.
Proof.
  intros Hv Hitem Hid. unfold seriesData in Hitem.
  apply list_elem_of_fmap in Hitem as (id & -> & _).
  rewrite seriesItem_aggregateData in *.
  unfold tooltipAdapter, onPointerOver.
  destruct (entryOf id data) as [e|] eqn:He;
    cbn [Item.id Item.displayName Item.positive Item.neutral Item.negative
         Item.total Item.interactive] in *.
  - pose proof (entryOf_total id data e Hv He) as [_ Hpos].
    assert ((0 <? Entry.total e) = true) as -> by (apply Z.ltb_lt; lia).
    rewrite !orZero_id.
    exists ("[bold]" +:+ (orElse (Some (Entry.displayName e)) id +:+ "[/]")),
           (orElse (getProp names id) (orElse (Some (Entry.displayName e)) id)).
    split; [|done]. by rewrite !append_assoc.
  - change (0 <? 0) with false. cbv iota.
    destruct id as [|c id]; [done|].
    destruct (getProp names (String c id)) as [[|c' name]|];
      cbn [orElse truthy]; eauto.
Qed.

End TooltipFacts.

Lemma tooltips_agree_sample :
  if Item.interactive sampleItem then
    ∃ heading heading',
      tooltipAdapter (Some sampleItem) =
        heading +:+ countsText (Item.positive sampleItem) (Item.neutral sampleItem)
                      (Item.negative sampleItem) ∧
      onPointerOver (idToCountryName sampleTable) (Some sampleItem) =
        Some (heading' +:+
              countsText (Item.positive sampleItem) (Item.neutral sampleItem)
                (Item.negative sampleItem))
  else
    onPointerOver (idToCountryName sampleTable) (Some sampleItem)
      = Some (tooltipAdapter (Some sampleItem)) ∧
    ∃ name, tooltipAdapter (Some sampleItem) = "No data for " +:+ name.
Proof.
  apply (@tooltips_agree sampleHost sampleRows (idToCountryName sampleTable)
           "overall" ["IN"; "US"] sampleItem).
  - repeat constructor.
  - unfold seriesData, sampleItem. apply list_elem_of_fmap_2. set_solver.
  - by vm_compute.
Defined.

Example tooltips_sample :
  onPointerOver (idToCountryName sampleTable) (Some sampleItem)
    = Some "No data for United States of America" ∧
  tooltipAdapter
    (Some (seriesItem (@aggregateData sampleHost sampleRows).1
             (idToCountryName sampleTable) "overall" "IN"))
  = "[bold]India[/]" +:+ newline +:+ "Positive: 1" +:+ newline +:+ "Neutral: 1"
    +:+ newline +:+ "Negative: 0".
Proof. split; vm_compute; reflexivity. Qed.
